(** * thred-js: the streaming client of the Thred API

    A shallow embedding of [src/client.ts] and [src/errors.ts], with the
    properties of the stream splitter, the request validation and the error
    classifier.  [src/client.ts] holds the class [ThredClient] twice; the
    line numbers below are those of the first copy.  The second copy adds
    the [targets] argument and [setResponse], and processes the stream in
    the same way.

    JavaScript strings are sequences of UTF-16 code units; they are modelled
    as lists of code units ([N]).  The platform services the client calls
    ([fetch], [TextDecoder], [JSON.parse]) are parameters of the client
    model; a WHATWG UTF-8 decoder and a JSON reader are supplied further
    down so that the client can be run on concrete streams. *)

From Stdlib Require Import List NArith Bool Arith Lia.
From Stdlib Require String Ascii DecimalString.
Import ListNotations String.StringSyntax.
Open Scope string_scope.
Open Scope list_scope.

Set Implicit Arguments.

(** ** JavaScript strings *)

Module JS.

Definition jsstring := list N.
Definition bytes := list N.

(** A string literal, code unit by code unit. *)
Definition lit (s : String.string) : jsstring :=
  map Ascii.N_of_ascii (String.list_ascii_of_string s).

(** [if (s)] on a string: the empty string is the only falsy one. *)
Definition truthy (s : jsstring) : bool :=
  match s with [] => false | _ :: _ => true end.

(** [a === b] on strings. *)
Fixpoint eqs (a b : jsstring) : bool :=
  match a, b with
  | [], [] => true
  | x :: a', y :: b' => N.eqb x y && eqs a' b'
  | _, _ => false
  end.

(** [s.startsWith(pat)] *)
Fixpoint startsWith (pat s : jsstring) : bool :=
  match pat, s with
  | [], _ => true
  | _ :: _, [] => false
  | p :: pat', c :: s' => N.eqb p c && startsWith pat' s'
  end.

(** [s.indexOf(pat)]: the first position at which [pat] occurs; [None]
    stands for [-1]. *)
Fixpoint indexOf (s pat : jsstring) : option nat :=
  if startsWith pat s then Some 0
  else match s with
       | [] => None
       | _ :: s' => option_map S (indexOf s' pat)
       end.

(** [s.includes(pat)] *)
Definition includes (s pat : jsstring) : bool :=
  match indexOf s pat with Some _ => true | None => false end.

(** [s.substring(i, j)] and [s.substring(i)] for [0 <= i <= j]. *)
Definition substring (s : jsstring) (i j : nat) : jsstring :=
  firstn (j - i) (skipn i s).
Definition substringFrom (s : jsstring) (i : nat) : jsstring := skipn i s.

(** [s.split(sep)] for a non-empty separator: the pieces between the
    successive non-overlapping occurrences of [sep], found left to right.
    The search restarts after each occurrence, so the recursion is on a
    strictly shorter string; [splitN] carries the bound. *)
Fixpoint splitN (n : nat) (s sep : jsstring) : list jsstring :=
  match n with
  | O => [s]
  | S n' =>
      match indexOf s sep with
      | None => [s]
      | Some p => firstn p s :: splitN n' (skipn (p + length sep) s) sep
      end
  end.
Definition split (s sep : jsstring) : list jsstring :=
  splitN (length s) s sep.

(** [xs.join(sep)] *)
Fixpoint join (sep : jsstring) (xs : list jsstring) : jsstring :=
  match xs with
  | [] => []
  | [x] => x
  | x :: xs' => x ++ sep ++ join sep xs'
  end.

(** White space and line terminators of ECMAScript, as [trim] strips them. *)
Definition isWhiteSpace (c : N) : bool :=
  let at_ x := N.eqb c x in
  (at_ 9 || at_ 10 || at_ 11 || at_ 12 || at_ 13 || at_ 32 || at_ 160
   || at_ 5760 || (N.leb 8192 c && N.leb c 8202)
   || at_ 8232 || at_ 8233 || at_ 8239 || at_ 8287 || at_ 12288
   || at_ 65279)%N.

Fixpoint trimStart (s : jsstring) : jsstring :=
  match s with
  | [] => []
  | c :: s' => if isWhiteSpace c then trimStart s' else s
  end.
Definition trimEnd (s : jsstring) : jsstring := rev (trimStart (rev s)).
Definition trim (s : jsstring) : jsstring := trimEnd (trimStart s).

End JS.
Import JS.

(** The two separators of the wire format. *)
Definition LF : N := 10.
Definition LBRACE : N := 123.
(** ["\n\n{"] *)
Definition delimiter : jsstring := [LF; LF; LBRACE].
(** ["\n\n"] *)
Definition blankLine : jsstring := [LF; LF].

(** ** The stream splitter of [answerStream] and [answerStreamGenerator] *)

Section Splitter.

(** [new TextDecoder()] and [decoder.decode(value, { stream: true })]: the
    decoder keeps the bytes of an unfinished character between calls. *)
Variable DecoderState : Type.
Variable decode : DecoderState -> bytes -> DecoderState * jsstring.

(** [JSON.parse]: [None] when it throws. *)
Variable J : Type.
Variable JSON_parse : jsstring -> option J.

(** The variables of [answerStream]: [buffer], [accumulatedText] and
    [metadata].  [metadata] is [null] until a parse succeeds; the texts
    parsed hold a brace, so that the parsed value is never [null] itself
    ([run_never_returns_parsed_null] below), and [None] stands for
    [null]. *)
Record state := mkState {
  buffer : jsstring;
  accumulatedText : jsstring;
  metadata : option J
}.

Definition initial : state := mkState [] [] None.

Inductive control := Continue | Break.

(** [accumulatedText += text; onChunk(accumulatedText)] when [text] is
    non-empty (the guarded form, client.ts 169-172 and 200-203). *)
Definition appendIfAny (acc text : jsstring) : jsstring * list jsstring :=
  if truthy text then (acc ++ text, [acc ++ text]) else (acc, []).

(** The body of [while (true)] after a read that is not [done]
    (client.ts 162-189), on the decoded text of the chunk.  It returns the
    arguments of the [onChunk] calls it makes, the new variables, and how
    the iteration ends. *)
Definition loopBody (st : state) (text : jsstring)
  : list jsstring * state * control :=
  let buf := buffer st ++ text in
  match indexOf buf delimiter with
  | Some metadataIndex =>
      let textContent := substring buf 0 metadataIndex in
      let '(acc, out) := appendIfAny (accumulatedText st) textContent in
      let metadataStr := substringFrom buf (metadataIndex + 2) in
      match JSON_parse metadataStr with
      | None => (out, mkState buf acc (metadata st), Continue)
      | Some m => (out, mkState [] acc (Some m), Break)
      end
  | None =>
      let acc := accumulatedText st ++ buf in
      ([acc], mkState [] acc (metadata st), Continue)
  end.

(** The [while (true)] loop (client.ts 155-190) over the chunks the reader
    delivers; the end of the list is the read that reports [done]. *)
Fixpoint readLoop (d : DecoderState) (chunks : list bytes) (st : state)
  : list jsstring * state :=
  match chunks with
  | [] => ([], st)
  | value :: rest =>
      let '(d', text) := decode d value in
      let '(out, st', c) := loopBody st text in
      match c with
      | Break => (out, st')
      | Continue =>
          let '(out', st'') := readLoop d' rest st' in (out ++ out', st'')
      end
  end.

(** The code after the loop (client.ts 192-218). *)
Definition drain (st : state) : list jsstring * state :=
  if truthy (buffer st) then
    let lines := split (buffer st) blankLine in
    if 1 <? length lines then
      let textPart := nth 0 lines [] in
      let metadataPart := join blankLine (skipn 1 lines) in
      let '(acc, out) := appendIfAny (accumulatedText st) textPart in
      if truthy metadataPart then
        match JSON_parse metadataPart with
        | Some m => (out, mkState (buffer st) acc (Some m))
        | None =>
            let acc' := acc ++ blankLine ++ metadataPart in
            (out ++ [acc'], mkState (buffer st) acc' (metadata st))
        end
      else (out, mkState (buffer st) acc (metadata st))
    else
      let acc := accumulatedText st ++ buffer st in
      ([acc], mkState (buffer st) acc (metadata st))
  else ([], st).

(** The stream processing of [answerStream] (client.ts 148-223) on the
    chunks of the response body: the arguments of the successive [onChunk]
    calls and the returned metadata. *)
Definition processStream (d0 : DecoderState) (chunks : list bytes)
  : list jsstring * option J :=
  let '(out1, st1) := readLoop d0 chunks initial in
  let '(out2, st2) := drain st1 in
  (out1 ++ out2, metadata st2).

(** *** The generator shape, [answerStreamGenerator] *)

(** What the generator yields: [string | { metadata: AnswerResponse }]. *)
Inductive yielded :=
| YText (accumulatedText : jsstring)
| YMeta (metadata : J).

(** The generator has [buffer] and [accumulatedText] only. *)
Definition gstate : Type := jsstring * jsstring.

Definition yieldIfAny (acc text : jsstring) : jsstring * list yielded :=
  if truthy text then (acc ++ text, [YText (acc ++ text)]) else (acc, []).

(** The loop body of the generator (client.ts 279-308). *)
Definition genBody (st : gstate) (text : jsstring)
  : list yielded * gstate * control :=
  let '(buffer0, accumulated0) := st in
  let buf := buffer0 ++ text in
  match indexOf buf delimiter with
  | Some metadataIndex =>
      let textContent := substring buf 0 metadataIndex in
      let '(acc, out) := yieldIfAny accumulated0 textContent in
      let metadataStr := substringFrom buf (metadataIndex + 2) in
      match JSON_parse metadataStr with
      | Some m => (out ++ [YMeta m], ([], acc), Break)
      | None => (out, (buf, acc), Continue)
      end
  | None =>
      let acc := accumulated0 ++ buf in
      ([YText acc], ([], acc), Continue)
  end.

(** The loop of the generator (client.ts 272-309). *)
Fixpoint genLoop (d : DecoderState) (chunks : list bytes) (st : gstate)
  : list yielded * gstate :=
  match chunks with
  | [] => ([], st)
  | value :: rest =>
      let '(d', text) := decode d value in
      let '(out, st', c) := genBody st text in
      match c with
      | Break => (out, st')
      | Continue =>
          let '(out', st'') := genLoop d' rest st' in (out ++ out', st'')
      end
  end.

(** The code after the loop of the generator (client.ts 311-338). *)
Definition genDrain (st : gstate) : list yielded :=
  let '(buffer0, accumulated0) := st in
  if truthy buffer0 then
    let lines := split buffer0 blankLine in
    if 1 <? length lines then
      let textPart := nth 0 lines [] in
      let metadataPart := join blankLine (skipn 1 lines) in
      let '(acc, out) := yieldIfAny accumulated0 textPart in
      if truthy metadataPart then
        match JSON_parse metadataPart with
        | Some m => out ++ [YMeta m]
        | None => out ++ [YText (acc ++ blankLine ++ metadataPart)]
        end
      else out
    else [YText (accumulated0 ++ buffer0)]
  else [].

(** Everything [answerStreamGenerator] yields on the chunks of the response
    body, for a consumer that iterates to the end (client.ts 266-342). *)
Definition generateStream (d0 : DecoderState) (chunks : list bytes)
  : list yielded :=
  let '(out1, st1) := genLoop d0 chunks ([], []) in
  out1 ++ genDrain st1.

(** The texts the decoder produces for the successive chunks. *)
Fixpoint decodeAll (d : DecoderState) (chunks : list bytes) : list jsstring :=
  match chunks with
  | [] => []
  | value :: rest =>
      let '(d', text) := decode d value in text :: decodeAll d' rest
  end.

(** The state of the decoder after the chunks. *)
Fixpoint decoderAfter (d : DecoderState) (chunks : list bytes) : DecoderState :=
  match chunks with
  | [] => d
  | value :: rest => decoderAfter (fst (decode d value)) rest
  end.

End Splitter.

(** ** The platform: [TextDecoder] *)

(** The UTF-8 decoder of the WHATWG Encoding Standard, as
    [new TextDecoder()] runs it under [{ stream: true }]: the state of an
    unfinished character survives the end of a chunk, malformed input
    becomes U+FFFD, a leading byte order mark is dropped, and code points
    above U+FFFF come out as surrogate pairs. *)
Module Utf8.

Record decoder := mkDecoder {
  codePoint : N;
  bytesSeen : N;
  bytesNeeded : N;
  lowerBoundary : N;
  upperBoundary : N;
  bomSeen : bool
}.

Definition fresh : decoder := mkDecoder 0 0 0 128 191 false.

Definition between (lo x hi : N) : bool := (N.leb lo x && N.leb x hi)%N.

(** UTF-16 code units of a code point. *)
Definition utf16 (cp : N) : jsstring :=
  if N.ltb cp 65536 then [cp]
  else let c := (cp - 65536)%N in
       [(55296 + N.shiftr c 10)%N; (56320 + N.land c 1023)%N].

(** Emitting a code point: the first one is dropped when it is U+FEFF. *)
Definition emit (bom : bool) (cp : N) : bool * jsstring :=
  if negb bom && N.eqb cp 65279 then (true, []) else (true, utf16 cp).

(** A byte met when no character is under way. *)
Definition lead (bom : bool) (b : N) : decoder * jsstring :=
  if between 0 b 127 then
    let '(bom', out) := emit bom b in (mkDecoder 0 0 0 128 191 bom', out)
  else if between 194 b 223 then
    (mkDecoder (N.land b 31) 0 1 128 191 bom, [])
  else if between 224 b 239 then
    (mkDecoder (N.land b 15) 0 2
       (if N.eqb b 224 then 160 else 128)
       (if N.eqb b 237 then 159 else 191) bom, [])
  else if between 240 b 244 then
    (mkDecoder (N.land b 7) 0 3
       (if N.eqb b 240 then 144 else 128)
       (if N.eqb b 244 then 143 else 191) bom, [])
  else
    let '(bom', out) := emit bom 65533 in (mkDecoder 0 0 0 128 191 bom', out).

(** The handler of the decoder on one byte. *)
Definition handler (d : decoder) (b : N) : decoder * jsstring :=
  if N.eqb (bytesNeeded d) 0 then lead (bomSeen d) b
  else if negb (between (lowerBoundary d) b (upperBoundary d)) then
    (* the byte is put back and read again after the error *)
    let '(bom', out) := emit (bomSeen d) 65533 in
    let '(d', out') := lead bom' b in
    (d', out ++ out')
  else
    let cp := N.lor (N.shiftl (codePoint d) 6) (N.land b 63) in
    let seen := (bytesSeen d + 1)%N in
    if N.eqb seen (bytesNeeded d) then
      let '(bom', out) := emit (bomSeen d) cp in
      (mkDecoder 0 0 0 128 191 bom', out)
    else (mkDecoder cp seen (bytesNeeded d) 128 191 (bomSeen d), []).

(** [decoder.decode(value, { stream: true })] *)
Fixpoint decode (d : decoder) (value : bytes) : decoder * jsstring :=
  match value with
  | [] => (d, [])
  | b :: rest =>
      let '(d1, out1) := handler d b in
      let '(d2, out2) := decode d1 rest in
      (d2, out1 ++ out2)
  end.

End Utf8.

(** ** The platform: [JSON.parse] *)

Module Json.

(** A parsed JSON text.  A number keeps its source text, an object its
    members in source order. *)
#[local] Unset Elimination Schemes.
Inductive json :=
| JNull
| JBool (b : bool)
| JNumber (lexeme : jsstring)
| JString (s : jsstring)
| JArray (elements : list json)
| JObject (members : list (jsstring * json)).
#[local] Set Elimination Schemes.

Definition isWs (c : N) : bool :=
  (N.eqb c 32 || N.eqb c 9 || N.eqb c 10 || N.eqb c 13)%N.

Fixpoint skipWs (s : jsstring) : jsstring :=
  match s with
  | [] => []
  | c :: r => if isWs c then skipWs r else s
  end.

Definition isDigit (c : N) : bool := (N.leb 48 c && N.leb c 57)%N.

Definition hexValue (c : N) : option N :=
  if isDigit c then Some (c - 48)%N
  else if (N.leb 65 c && N.leb c 70)%N then Some (c - 55)%N
  else if (N.leb 97 c && N.leb c 102)%N then Some (c - 87)%N
  else None.

Definition hex4 (a b c d : N) : option N :=
  match hexValue a, hexValue b, hexValue c, hexValue d with
  | Some x, Some y, Some z, Some w => Some (((x * 16 + y) * 16 + z) * 16 + w)%N
  | _, _, _, _ => None
  end.

(** The single-character escapes after a backslash. *)
Definition escape (c : N) : option N :=
  if N.eqb c 34 then Some 34%N        (* quote *)
  else if N.eqb c 92 then Some 92%N   (* backslash *)
  else if N.eqb c 47 then Some 47%N   (* slash *)
  else if N.eqb c 98 then Some 8%N    (* b *)
  else if N.eqb c 102 then Some 12%N  (* f *)
  else if N.eqb c 110 then Some 10%N  (* n *)
  else if N.eqb c 114 then Some 13%N  (* r *)
  else if N.eqb c 116 then Some 9%N   (* t *)
  else None.

(** The rest of a string after its opening quote. *)
Fixpoint pstring (s : jsstring) (acc : jsstring) : option (jsstring * jsstring) :=
  match s with
  | [] => None
  | c :: r =>
      if N.eqb c 34 then Some (rev acc, r)
      else if N.eqb c 92 then
        match r with
        | [] => None
        | e :: r1 =>
            if N.eqb e 117 then
              match r1 with
              | h1 :: h2 :: h3 :: h4 :: r2 =>
                  match hex4 h1 h2 h3 h4 with
                  | Some u => pstring r2 (u :: acc)
                  | None => None
                  end
              | _ => None
              end
            else match escape e with
                 | Some u => pstring r1 (u :: acc)
                 | None => None
                 end
        end
      else if N.ltb c 32 then None
      else pstring r (c :: acc)
  end.

Fixpoint digits (s : jsstring) : jsstring * jsstring :=
  match s with
  | [] => ([], [])
  | c :: r => if isDigit c then let '(ds, r') := digits r in (c :: ds, r')
              else ([], s)
  end.

(** A number: an optional minus sign, an integer part without a leading
    zero (unless it is 0 alone), an optional fraction (a dot and digits)
    and an optional exponent (e or E, a sign, digits). *)
Definition pnumber (s : jsstring) : option (jsstring * jsstring) :=
  let '(sign, s1) :=
    match s with
    | c :: r => if N.eqb c 45 then ([c], r) else ([], s)
    | [] => ([], s)
    end in
  let '(int, s2) := digits s1 in
  match int with
  | [] => None
  | d :: more =>
      if N.eqb d 48 && truthy more then None
      else
        let frac :=
          match s2 with
          | c :: r =>
              if N.eqb c 46 then
                let '(fs, r') := digits r in
                if truthy fs then Some (c :: fs, r') else None
              else Some ([], s2)
          | [] => Some ([], s2)
          end in
        match frac with
        | None => None
        | Some (f, s3) =>
            let expo :=
              match s3 with
              | c :: r =>
                  if N.eqb c 101 || N.eqb c 69 then
                    let '(sg, r1) :=
                      match r with
                      | x :: r0 =>
                          if N.eqb x 43 || N.eqb x 45 then ([x], r0)
                          else ([], r)
                      | [] => ([], r)
                      end in
                    let '(es, r2) := digits r1 in
                    if truthy es then Some (c :: sg ++ es, r2) else None
                  else Some ([], s3)
              | [] => Some ([], s3)
              end in
            match expo with
            | None => None
            | Some (e, s4) => Some (sign ++ int ++ f ++ e, s4)
            end
        end
  end.

(** Values, array elements and object members; [fuel] bounds the depth of
    the calls, two per character being enough. *)
Fixpoint pvalue (fuel : nat) (s : jsstring) {struct fuel}
  : option (json * jsstring) :=
  match fuel with
  | O => None
  | S f =>
      match skipWs s with
      | [] => None
      | c :: r =>
          if N.eqb c 123 then
            match skipWs r with
            | c' :: r' =>
                if N.eqb c' 125 then Some (JObject [], r')
                else pmembers f r []
            | [] => None
            end
          else if N.eqb c 91 then
            match skipWs r with
            | c' :: r' =>
                if N.eqb c' 93 then Some (JArray [], r')
                else pelements f r []
            | [] => None
            end
          else if N.eqb c 34 then
            match pstring r [] with
            | Some (str, r') => Some (JString str, r')
            | None => None
            end
          else if startsWith (lit "true") (c :: r) then
            Some (JBool true, skipn 4 (c :: r))
          else if startsWith (lit "false") (c :: r) then
            Some (JBool false, skipn 5 (c :: r))
          else if startsWith (lit "null") (c :: r) then
            Some (JNull, skipn 4 (c :: r))
          else
            match pnumber (c :: r) with
            | Some (n, r') => Some (JNumber n, r')
            | None => None
            end
      end
  end
with pelements (fuel : nat) (s : jsstring) (acc : list json) {struct fuel}
  : option (json * jsstring) :=
  match fuel with
  | O => None
  | S f =>
      match pvalue f s with
      | None => None
      | Some (v, r) =>
          match skipWs r with
          | c :: r' =>
              if N.eqb c 44 then pelements f r' (v :: acc)
              else if N.eqb c 93 then Some (JArray (rev (v :: acc)), r')
              else None
          | [] => None
          end
      end
  end
with pmembers (fuel : nat) (s : jsstring) (acc : list (jsstring * json))
  {struct fuel} : option (json * jsstring) :=
  match fuel with
  | O => None
  | S f =>
      match skipWs s with
      | c :: r =>
          if N.eqb c 34 then
            match pstring r [] with
            | Some (key, r1) =>
                match skipWs r1 with
                | c1 :: r2 =>
                    if N.eqb c1 58 then
                      match pvalue f r2 with
                      | Some (v, r3) =>
                          match skipWs r3 with
                          | c3 :: r4 =>
                              if N.eqb c3 44 then
                                pmembers f r4 ((key, v) :: acc)
                              else if N.eqb c3 125 then
                                Some (JObject (rev ((key, v) :: acc)), r4)
                              else None
                          | [] => None
                          end
                      | None => None
                      end
                    else None
                | [] => None
                end
            | None => None
            end
          else None
      | [] => None
      end
  end.

(** [JSON.parse(text)]: one value, white space around it, nothing else. *)
Definition parse (text : jsstring) : option json :=
  match pvalue (2 * length text + 2) text with
  | Some (v, r) => if truthy (skipWs r) then None else Some v
  | None => None
  end.

End Json.

Arguments YText {J} accumulatedText.
Arguments YMeta {J} metadata.

(** ** [src/errors.ts] *)

(** [ErrorResponse] of [types.ts]. *)
Record ErrorResponse := mkErrorResponse {
  er_error : jsstring;
  er_message : option jsstring
}.

(** The classes of [errors.ts]; the class of a thrown object is what
    [instanceof] and its [name] field tell apart. *)
Inductive ErrorClass :=
| ThredError
| AuthenticationError
| ValidationError
| ServerError
| NetworkError
| TimeoutError.

(** What the client throws: a plain [Error], an instance of one of the
    classes above with its [statusCode] and [response] fields, or the
    [SyntaxError] of a [response.json()] that cannot be read. *)
Inductive exn :=
| Error (message : jsstring)
| Thred (cls : ErrorClass) (message : jsstring)
        (statusCode : option N) (response : option ErrorResponse)
| SyntaxError.

(** The constructors (errors.ts 10-76). *)
Definition new_ThredError (message : jsstring) (statusCode : option N)
    (response : option ErrorResponse) : exn :=
  Thred ThredError message statusCode response.
Definition new_AuthenticationError (message : jsstring)
    (response : option ErrorResponse) : exn :=
  Thred AuthenticationError message (Some 401%N) response.
Definition new_ValidationError (message : jsstring)
    (response : option ErrorResponse) : exn :=
  Thred ValidationError message (Some 400%N) response.
Definition new_ServerError (message : jsstring)
    (response : option ErrorResponse) : exn :=
  Thred ServerError message (Some 500%N) response.
Definition new_NetworkError (message : jsstring) : exn :=
  Thred NetworkError message None None.
Definition new_TimeoutError (message : jsstring) : exn :=
  Thred TimeoutError message None None.

(** A [Response] of the fetch API, as far as the client looks at it.
    [json] is what [response.json()] resolves to, [None] when it rejects;
    the body type [B] is [ErrorResponse] on the error path and the answer
    on the success path.  [body] lists the chunks the reader of
    [response.body] delivers before it reports [done]; [None] is a [null]
    body. *)
Record Response (B : Type) := mkResponse {
  status : N;
  statusText : jsstring;
  contentType : option jsstring;
  json : option B;
  body : option (list bytes)
}.

(** [response.ok] *)
Definition ok {B} (r : Response B) : bool :=
  (N.leb 200 (status r) && N.leb (status r) 299)%N.

(** [a || b] where [a] is an optional string: [undefined] and the empty
    string both give way to [b]. *)
Definition orElse (a : option jsstring) (b : jsstring) : jsstring :=
  match a with
  | Some s => if truthy s then s else b
  | None => b
  end.

(** [handleApiError] (errors.ts 81-105); it always throws, and the thrown
    object is its result here. *)
Definition handleApiError (response : Response ErrorResponse) : exn :=
  let errorData :=
    match contentType response with
    | Some ct =>
        if includes ct (lit "application/json") then json response else None
    | None => None
    end in
  let message :=
    orElse (match errorData with Some e => er_message e | None => None end)
      (orElse (option_map er_error errorData) (statusText response)) in
  if N.eqb (status response) 400 then new_ValidationError message errorData
  else if N.eqb (status response) 401 then
    new_AuthenticationError message errorData
  else if N.eqb (status response) 500 then new_ServerError message errorData
  else new_ThredError message (Some (status response)) errorData.

(** ** [src/client.ts] *)

Inductive Model := gpt_4 | gpt_4_turbo | gpt_3_5_turbo.

(** What [fetch] rejects with: an [Error] object with its [name] and
    [message], or some other value. *)
Inductive Rejection :=
| ErrorObject (name message : jsstring)
| NotAnError.

(** The [number] a configuration gives as timeout: a count of
    milliseconds, or [NaN], which is falsy like zero. *)
Inductive number :=
| Millis (n : N)
| NaN.

(** Decimal digits of a number, for the template literal of the timeout
    message; this is how a count below 10^21 prints. *)
Definition decimal (n : N) : jsstring :=
  lit (DecimalString.NilEmpty.string_of_uint (N.to_uint n)).

Section Client.

Variable DecoderState : Type.
Variable decode : DecoderState -> bytes -> DecoderState * jsstring.
(** [new TextDecoder()] *)
Variable newDecoder : DecoderState.

(** The parsed JSON values and [JSON.parse]. *)
Variable J : Type.
Variable JSON_parse : jsstring -> option J.

(** The optional fields of a request other than [model]; the client copies
    them into the payload untouched. *)
Variable Options : Type.

Record AnswerRequest := mkRequest {
  message : jsstring;
  model : option Model;
  options : Options
}.

(** [ThredConfig] and the fields of [ThredClient]. *)
Record ThredConfig := mkConfig {
  cfg_apiKey : jsstring;
  cfg_defaultModel : option Model;
  cfg_timeout : option number
}.

Record ThredClient := mkClient {
  apiKey : jsstring;
  defaultModel : Model;
  timeout : N
}.

Definition baseUrl : jsstring := lit "https://api.thred.dev/v1".

(** The constructor (client.ts 21-29). *)
Definition new_ThredClient (config : ThredConfig) : exn + ThredClient :=
  if negb (truthy (cfg_apiKey config)) then
    inl (Error (lit "API key is required"))
  else
    inr (mkClient (cfg_apiKey config)
           (match cfg_defaultModel config with Some m => m | None => gpt_4 end)
           (match cfg_timeout config with
            | Some (Millis t) => if N.eqb t 0 then 30000%N else t
            | Some NaN => 30000%N
            | None => 30000%N
            end)).

(** The request the client hands to [fetch]. *)
Record RequestInit := mkInit {
  method : jsstring;
  authorization : jsstring;
  requestContentType : jsstring;
  payload : AnswerRequest
}.

Inductive FetchOutcome :=
| Resolves (response : Response J)
| Rejects (reason : Rejection).

(** The network: how [fetch] answers a request to a URL.  The timer of
    [fetchWithTimeout] aborts the request through the signal; the network
    then rejects with an [Error] named [AbortError]. *)
Variable fetch : jsstring -> RequestInit -> FetchOutcome.

(** What the outside sees of a call, in order. *)
Inductive effect :=
| EFetch (url : jsstring) (init : RequestInit)
| EGetReader
| EOnChunk (accumulatedText : jsstring)
| EYield (value : yielded J)
| EReleaseLock.

(** A computation that logs its effects and returns or throws. *)
Definition M (A : Type) : Type := list effect * (exn + A).

Definition ret {A} (a : A) : M A := ([], inr a).
Definition throw {A} (e : exn) : M A := ([], inl e).
Definition tell (es : list effect) : M unit := (es, inr tt).
Definition bind {A B} (m : M A) (k : A -> M B) : M B :=
  match m with
  | (t, inl e) => (t, inl e)
  | (t, inr a) => let '(t', r) := k a in (t ++ t', r)
  end.
(** [try { m } finally { reader.releaseLock() }] *)
Definition finallyRelease {A} (m : M A) : M A :=
  let '(t, r) := m in (t ++ [EReleaseLock], r).

Notation "x <- m ;; k" := (bind m (fun x => k))
  (at level 61, m at next level, right associativity).
Notation "m ;;; k" := (bind m (fun _ => k))
  (at level 61, right associativity).

(** [getHeaders] and the options of the POST (client.ts 34-39, 91-95). *)
Definition post (c : ThredClient) (p : AnswerRequest) : RequestInit :=
  mkInit (lit "POST") (lit "Bearer " ++ apiKey c) (lit "application/json") p.

(** [fetchWithTimeout] (client.ts 44-68). *)
Definition fetchWithTimeout (url : jsstring) (init : RequestInit)
    (timeout : N) : M (Response J) :=
  tell [EFetch url init] ;;;
  match fetch url init with
  | Resolves response => ret response
  | Rejects (ErrorObject name msg) =>
      if eqs name (lit "AbortError") then
        throw (new_TimeoutError
                 (lit "Request timed out after " ++ decimal timeout ++ lit "ms"))
      else throw (new_NetworkError msg)
  | Rejects NotAnError => throw (new_NetworkError (lit "Network request failed"))
  end.

(** [!request.message || request.message.trim().length === 0] *)
Definition messageMissing (request : AnswerRequest) : bool :=
  negb (truthy (message request)) || Nat.eqb (length (trim (message request))) 0.

(** The payload: the request with the default model filled in. *)
Definition withModel (c : ThredClient) (request : AnswerRequest) : AnswerRequest :=
  mkRequest (message request)
    (Some (match model request with Some m => m | None => defaultModel c end))
    (options request).

(** The error body of a response, read at the type [handleApiError]
    expects; [asError] is how a parsed body is seen as an
    [ErrorResponse]. *)
Variable asError : J -> ErrorResponse.
Definition errorView (r : Response J) : Response ErrorResponse :=
  mkResponse (status r) (statusText r) (contentType r)
    (option_map asError (json r)) (body r).

(** [if (!response.ok) await handleApiError(response)] *)
Definition checkOk (response : Response J) : M unit :=
  if negb (ok response) then throw (handleApiError (errorView response))
  else ret tt.

(** [answer] (client.ts 75-104). *)
Definition answer (c : ThredClient) (request : AnswerRequest) : M J :=
  if messageMissing request then throw (Error (lit "Message is required"))
  else
    response <- fetchWithTimeout (baseUrl ++ lit "/answer")
                  (post c (withModel c request)) (timeout c) ;;
    checkOk response ;;;
    match json response with
    | Some j => ret j
    | None => throw SyntaxError
    end.

(** [answerStream] (client.ts 112-224), for a body whose reads all succeed
    and a callback that returns; [WithFailures.answerStream] below has the
    exits by exception. *)
Definition answerStream (c : ThredClient) (request : AnswerRequest)
  : M (option J) :=
  if messageMissing request then throw (Error (lit "Message is required"))
  else
    response <- fetchWithTimeout (baseUrl ++ lit "/answer/stream")
                  (post c (withModel c request)) (timeout c) ;;
    checkOk response ;;;
    match body response with
    | None => throw (Error (lit "Response body is null"))
    | Some chunks =>
        tell [EGetReader] ;;;
        finallyRelease
          (let '(calls, metadata) :=
             processStream decode JSON_parse newDecoder chunks in
           tell (map EOnChunk calls) ;;; ret metadata)
    end.

(** [answerStreamGenerator] (client.ts 231-342), driven by a consumer that
    iterates until the generator is done; the body of a generator starts
    running at the first [next()].  The reads of the body all succeed here;
    [WithFailures.answerStreamGenerator] below has the read that rejects. *)
Definition answerStreamGenerator (c : ThredClient) (request : AnswerRequest)
  : M unit :=
  if messageMissing request then throw (Error (lit "Message is required"))
  else
    response <- fetchWithTimeout (baseUrl ++ lit "/answer/stream")
                  (post c (withModel c request)) (timeout c) ;;
    checkOk response ;;;
    match body response with
    | None => throw (Error (lit "Response body is null"))
    | Some chunks =>
        tell [EGetReader] ;;;
        finallyRelease
          (tell (map EYield (generateStream decode JSON_parse newDecoder chunks)))
    end.

End Client.

Arguments EFetch {J Options} url init.
Arguments EGetReader {J Options}.
Arguments EOnChunk {J Options} accumulatedText.
Arguments EYield {J Options} value.
Arguments EReleaseLock {J Options}.
Arguments checkOk {J Options} asError response.
Arguments Rejects {J} reason.

(** ** Vocabulary of the properties *)

(** [a] is an initial part of [b]. *)
Definition prefix (a b : jsstring) : Prop := exists t, b = a ++ t.

(** Every value of the list is an initial part of all the later ones. *)
Definition monotone (l : list jsstring) : Prop :=
  forall i j x y, i < j ->
    nth_error l i = Some x -> nth_error l j = Some y -> prefix x y.

(** The values [out] lead from [a] to [b], each an initial part of the
    next. *)
Fixpoint ascending (a : jsstring) (out : list jsstring) (b : jsstring) : Prop :=
  match out with
  | [] => prefix a b
  | x :: out' => prefix a x /\ ascending x out' b
  end.

(** [out] are the successive values of the accumulated text on the way
    from [a] to [b]: the last of them is [b], and nothing changed when there
    are none. *)
Definition trail (a : jsstring) (out : list jsstring) (b : jsstring) : Prop :=
  ascending a out b /\ last out a = b.

(** The decoded text [D] ends with the JSON text of [m], after the answer
    text [A] and a blank line. *)
Definition closedBy {J} (JSON_parse : jsstring -> option J)
    (D A : jsstring) (m : J) : Prop :=
  exists Mstr, D = A ++ blankLine ++ Mstr /\ JSON_parse Mstr = Some m.

(** How the variables of the loop account for the text [D] decoded so far,
    between two reads: [D] is what was flushed followed by the pending
    buffer; the accumulated text is what was flushed while the buffer is
    empty; once the buffer holds the delimiter, at [i], the accumulated text
    starts with what was flushed and the text before the delimiter. *)
Definition accounted {J} (D : jsstring) (st : state J) : Prop :=
  exists flushed X,
    D = flushed ++ buffer st /\
    ((buffer st = [] /\ accumulatedText st = flushed) \/
     (exists i, indexOf (buffer st) delimiter = Some i /\
                accumulatedText st = flushed ++ firstn i (buffer st) ++ X)).

(** [a] can be read off [b] from left to right, skipping code units of
    [b]: every code unit of [a] is in [b], in the order of [a]. *)
Inductive subseq : jsstring -> jsstring -> Prop :=
| subseq_nil : forall b, subseq [] b
| subseq_skip : forall x a b, subseq a b -> subseq a (x :: b)
| subseq_take : forall x a b, subseq a b -> subseq (x :: a) (x :: b).

(** The strings and the metadata objects among the yielded values. *)
Fixpoint textsOf {J} (ys : list (yielded J)) : list jsstring :=
  match ys with
  | [] => []
  | YText t :: r => t :: textsOf r
  | YMeta _ :: r => textsOf r
  end.

Fixpoint metasOf {J} (ys : list (yielded J)) : list J :=
  match ys with
  | [] => []
  | YText _ :: r => metasOf r
  | YMeta m :: r => m :: metasOf r
  end.

(** The metadata event of a finished call of [answerStream], if any. *)
Definition terminal {J} (metadata : option J) : list (yielded J) :=
  match metadata with Some m => [YMeta m] | None => [] end.

(** Fields of a thrown object: [instanceof] class, [message],
    [statusCode], [response]. *)
Definition classOf (e : exn) : option ErrorClass :=
  match e with Thred c _ _ _ => Some c | _ => None end.
Definition messageOf (e : exn) : jsstring :=
  match e with
  | Error m => m
  | Thred _ m _ _ => m
  | SyntaxError => []
  end.
Definition statusCodeOf (e : exn) : option N :=
  match e with Thred _ _ sc _ => sc | _ => None end.
Definition responseOf (e : exn) : option ErrorResponse :=
  match e with Thred _ _ _ r => r | _ => None end.

(** The client on the platform supplied above. *)
Definition run : list bytes -> list jsstring * option Json.json :=
  processStream Utf8.decode Json.parse Utf8.fresh.
Definition runGenerator : list bytes -> list (yielded Json.json) :=
  generateStream Utf8.decode Json.parse Utf8.fresh.

(** A client, a network that is down and a reading of error bodies, for
    running the methods. *)
Definition exampleClient : ThredClient := mkClient (lit "key") gpt_4 30000.
Definition offline : jsstring -> RequestInit unit -> FetchOutcome Json.json :=
  fun _ _ => Rejects NotAnError.
Definition noDetail : Json.json -> ErrorResponse :=
  fun _ => mkErrorResponse [] None.

(** Pieces of the streams used as examples: a double quote, a line feed,
    and the metadata text of the specification's example. *)
Definition dq : jsstring := [34%N].
Definition nl : jsstring := [LF].
Definition brandUsedNull : jsstring :=
  lit "{" ++ dq ++ lit "brandUsed" ++ dq ++ lit ":null}".
(** ["Hello world\n\n{...}"], the stream of the specification's example. *)
Definition helloStream : bytes := lit "Hello world" ++ nl ++ nl ++ brandUsedNull.

(** ** [src/client.ts], second copy: [targets] and [setResponse] *)

(** [Targets] of [types.ts]: each target is an element id or an element. *)
Inductive Target (Handle : Type) :=
| ById (id : jsstring)
| Element (h : Handle).
Arguments ById {Handle} id.
Arguments Element {Handle} h.

Record Targets (Handle : Type) := mkTargets {
  tg_text : option (Target Handle);
  tg_link : option (Target Handle)
}.

(** The [response] field of a parsed result: a string, or no such field
    ([undefined]), or [null]. *)
Inductive ResponseText :=
| Str (s : jsstring)
| Undefined
| Null.

(** [AnswerResponse] and [AnswerMetadata] of [types.ts], as far as the
    client looks into them.  The client uses [metadata], [code] and [link]
    only after it has tested them, so that [None] stands for any falsy
    value there; [answer] tests [response] as well, but [answerStream]
    passes [response] on without a test, whatever it is. *)
Record AnswerMetadata := mkMetadata {
  am_link : option jsstring;
  am_code : option jsstring
}.
Record AnswerResponse := mkAnswer {
  ar_response : ResponseText;
  ar_metadata : option AnswerMetadata
}.

(** [if (s)] on a string that may be [undefined] or [null]. *)
Definition truthyOr (s : ResponseText) : bool :=
  match s with Str t => truthy t | Undefined => false | Null => false end.

(** What [element.innerHTML = s] stores: the string, the word
    [undefined] for [undefined], and the empty string for [null]. *)
Definition htmlOf (s : ResponseText) : jsstring :=
  match s with
  | Str t => t
  | Undefined => lit "undefined"
  | Null => []
  end.

Module WithTargets.
Section WithTargets.

Variable DecoderState : Type.
Variable decode : DecoderState -> bytes -> DecoderState * jsstring.
Variable newDecoder : DecoderState.
Variable J : Type.
Variable JSON_parse : jsstring -> option J.
Variable Options : Type.
Variable asError : J -> ErrorResponse.

(** A parsed body read at the type [AnswerResponse]; [None] for a value
    that is falsy. *)
Variable asAnswer : J -> option AnswerResponse.

(** The elements of the page and [document.getElementById]. *)
Variable Handle : Type.
Variable getElementById : jsstring -> option Handle.

(** What is posted: the payload of a request, or [{ text, code }]. *)
Inductive Body :=
| AnswerBody (payload : AnswerRequest Options)
| ImpressionBody (text code : jsstring).

Record Request := mkRequestInit {
  rq_method : jsstring;
  rq_authorization : jsstring;
  rq_contentType : jsstring;
  rq_body : Body
}.

Variable fetch : jsstring -> Request -> FetchOutcome J.

Inductive effect :=
| EFetch (url : jsstring) (init : Request)
| ESetInnerHTML (element : Handle) (html : jsstring)
| EGetReader
| EOnChunk (accumulatedText : jsstring)
| EReleaseLock.

Definition M (A : Type) : Type := list effect * (exn + A).

Definition ret {A} (a : A) : M A := ([], inr a).
Definition throw {A} (e : exn) : M A := ([], inl e).
Definition tell (es : list effect) : M unit := (es, inr tt).
Definition bind {A B} (m : M A) (k : A -> M B) : M B :=
  match m with
  | (t, inl e) => (t, inl e)
  | (t, inr a) => let '(t', r) := k a in (t ++ t', r)
  end.
Definition finallyRelease {A} (m : M A) : M A :=
  let '(t, r) := m in (t ++ [EReleaseLock], r).
(** A call whose promise is dropped: what it does happens, what it
    resolves to or rejects with is not looked at. *)
Definition detached {A} (m : M A) : M unit := (fst m, inr tt).

Notation "x <- m ;; k" := (bind m (fun x => k))
  (at level 61, m at next level, right associativity).
Notation "m ;;; k" := (bind m (fun _ => k))
  (at level 61, right associativity).

(** [getHeaders] and the options of a POST (client.ts 382-387). *)
Definition post (c : ThredClient) (b : Body) : Request :=
  mkRequestInit (lit "POST") (lit "Bearer " ++ apiKey c)
    (lit "application/json") b.

(** [fetchWithTimeout] (client.ts 392-416). *)
Definition fetchWithTimeout (url : jsstring) (init : Request) (timeout : N)
  : M (Response J) :=
  tell [EFetch url init] ;;;
  match fetch url init with
  | Resolves response => ret response
  | Rejects (ErrorObject name msg) =>
      if eqs name (lit "AbortError") then
        throw (new_TimeoutError
                 (lit "Request timed out after " ++ decimal timeout ++ lit "ms"))
      else throw (new_NetworkError msg)
  | Rejects NotAnError => throw (new_NetworkError (lit "Network request failed"))
  end.

Definition checkOk (response : Response J) : M unit :=
  if negb (ok response) then throw (handleApiError (errorView asError response))
  else ret tt.

(** [if (target)] on a target: an empty id is falsy. *)
Definition given (t : option (Target Handle)) : bool :=
  match t with
  | Some (ById id) => truthy id
  | Some (Element _) => true
  | None => false
  end.

(** The element of a target: itself, or the one [getElementById] finds. *)
Definition resolve (t : option (Target Handle)) : option Handle :=
  match t with
  | Some (Element h) => Some h
  | Some (ById id) => getElementById id
  | None => None
  end.

(** The writes of [setResponse] into the page (client.ts 617-642). *)
Definition writes (text : ResponseText) (link : option jsstring)
    (targets : option (Targets Handle)) : list effect :=
  match targets with
  | None => []
  | Some tg =>
      (if given (tg_text tg) then
         match resolve (tg_text tg) with
         | Some textElement => [ESetInnerHTML textElement (htmlOf text)]
         | None => []
         end
       else [])
      ++
      (if given (tg_link tg) then
         match resolve (tg_link tg), link with
         | Some linkElement, Some l =>
             if truthy l then [ESetInnerHTML linkElement l] else []
         | _, _ => []
         end
       else [])
  end.

(** [setResponse] (client.ts 611-661).  [text] is declared a string, but
    [answerStream] passes [result.response] as it is, so that it can be
    [undefined] or [null].  The value resolved to is [None] for
    [undefined]. *)
Definition setResponse (c : ThredClient) (text : ResponseText)
    (code : jsstring) (link : option jsstring)
    (targets : option (Targets Handle))
  : M (option J) :=
  tell (writes text link targets) ;;;
  match text with
  | Str t =>
      if truthy t && truthy code then
        response <- fetchWithTimeout (baseUrl ++ lit "/impressions/register")
                      (post c (ImpressionBody t code)) (timeout c) ;;
        checkOk response ;;;
        match json response with
        | Some j => ret (Some j)
        | None => throw SyntaxError
        end
      else ret None
  | Undefined => ret None
  | Null => ret None
  end.

(** The metadata and its code, when both are truthy:
    [r.metadata && r.metadata.code]. *)
Definition codeOf (r : AnswerResponse) : option (AnswerMetadata * jsstring) :=
  match ar_metadata r with
  | Some md =>
      match am_code md with
      | Some code => if truthy code then Some (md, code) else None
      | None => None
      end
  | None => None
  end.

(** [answer] (client.ts 423-472). *)
Definition answer (c : ThredClient) (request : AnswerRequest Options)
    (targets : option (Targets Handle)) : M J :=
  if messageMissing request then throw (Error (lit "Message is required"))
  else
    response <- fetchWithTimeout (baseUrl ++ lit "/answer")
                  (post c (AnswerBody (withModel c request))) (timeout c) ;;
    checkOk response ;;;
    match json response with
    | None => throw SyntaxError
    | Some responseJson =>
        match targets, asAnswer responseJson with
        | Some tg, Some r =>
            if truthyOr (ar_response r) then
              match codeOf r with
              | Some (md, code) =>
                  detached (setResponse c (ar_response r) code (am_link md)
                              (Some tg))
              | None => ret tt
              end
            else ret tt
        | _, _ => ret tt
        end ;;;
        ret responseJson
    end.

(** [answerStream] (client.ts 480-602). *)
Definition answerStream (c : ThredClient) (request : AnswerRequest Options)
    (targets : option (Targets Handle)) : M (option J) :=
  if messageMissing request then throw (Error (lit "Message is required"))
  else
    response <- fetchWithTimeout (baseUrl ++ lit "/answer/stream")
                  (post c (AnswerBody (withModel c request))) (timeout c) ;;
    checkOk response ;;;
    match body response with
    | None => throw (Error (lit "Response body is null"))
    | Some chunks =>
        tell [EGetReader] ;;;
        result <- finallyRelease
                    (let '(calls, result) :=
                       processStream decode JSON_parse newDecoder chunks in
                     tell (map EOnChunk calls) ;;; ret result) ;;
        match targets, result with
        | Some tg, Some resultJson =>
            match asAnswer resultJson with
            | Some r =>
                match codeOf r with
                | Some (md, code) =>
                    detached (setResponse c (ar_response r) code (am_link md)
                                (Some tg))
                | None => ret tt
                end
            | None => ret tt
            end
        | _, _ => ret tt
        end ;;;
        ret result
    end.

End WithTargets.
End WithTargets.

Arguments WithTargets.EFetch {Options Handle} url init.
Arguments WithTargets.ESetInnerHTML {Options Handle} element html.
Arguments WithTargets.EGetReader {Options Handle}.
Arguments WithTargets.EOnChunk {Options Handle} accumulatedText.
Arguments WithTargets.EReleaseLock {Options Handle}.
Arguments WithTargets.ImpressionBody {Options} text code.
Arguments WithTargets.fetchWithTimeout {J Options Handle} fetch url init timeout.
Arguments WithTargets.checkOk {J Options} asError {Handle} response.
Arguments WithTargets.writes {Options Handle} getElementById text link targets.

(** The request that registers an impression. *)
Definition impression {Options Handle} (c : ThredClient) (text code : jsstring)
  : WithTargets.effect Options Handle :=
  WithTargets.EFetch (baseUrl ++ lit "/impressions/register")
    (WithTargets.post c (WithTargets.ImpressionBody text code)).

(** The impression request [setResponse] sends for a text and a code: one
    request when both are non-empty strings, none otherwise. *)
Definition registration {Options Handle} (c : ThredClient)
    (text : ResponseText) (code : jsstring)
  : list (WithTargets.effect Options Handle) :=
  match text with
  | Str t => if truthy t && truthy code then [impression c t code] else []
  | Undefined => []
  | Null => []
  end.

(** The element a target stands for: the element itself, or the one the
    page has under the id; no target and the empty id stand for none. *)
Definition elementOf {Handle} (getElementById : jsstring -> option Handle)
    (t : option (Target Handle)) : option Handle :=
  match t with
  | Some (Element h) => Some h
  | Some (ById id) => if truthy id then getElementById id else None
  | None => None
  end.

(** The successive values of a text that starts as [acc] and grows by the
    pieces [texts], one value per piece. *)
Fixpoint running (acc : jsstring) (texts : list jsstring) : list jsstring :=
  match texts with
  | [] => []
  | t :: rest => (acc ++ t) :: running (acc ++ t) rest
  end.

(** A request of the first copy as the second copy posts it, and the
    effects of the first copy among those of the second; the second copy of
    [answer] and [answerStream] yields nothing. *)
Definition liftInit {Options} (init : RequestInit Options)
  : WithTargets.Request Options :=
  WithTargets.mkRequestInit (method init) (authorization init)
    (requestContentType init) (WithTargets.AnswerBody (payload init)).

Definition liftEffect {J Options Handle} (e : effect J Options)
  : option (WithTargets.effect Options Handle) :=
  match e with
  | EFetch url init => Some (WithTargets.EFetch url (liftInit init))
  | EGetReader => Some WithTargets.EGetReader
  | EOnChunk t => Some (WithTargets.EOnChunk t)
  | EYield _ => None
  | EReleaseLock => Some WithTargets.EReleaseLock
  end.

(** What a request of the client to the network has to look like, for a
    call with the request [request]: a POST with the key as bearer token and
    the JSON content type, that carries either the message and the options
    of the call, with a model, to one of the two answer end points, or a
    text and a code, both not empty, to the impressions end point.  Effects
    other than [fetch] are not constrained. *)
Definition wellFormed {Options Handle} (c : ThredClient)
    (request : AnswerRequest Options) (e : WithTargets.effect Options Handle)
  : Prop :=
  match e with
  | WithTargets.EFetch url init =>
      WithTargets.rq_method init = lit "POST"
      /\ WithTargets.rq_authorization init = lit "Bearer " ++ apiKey c
      /\ WithTargets.rq_contentType init = lit "application/json"
      /\ match WithTargets.rq_body init with
         | WithTargets.AnswerBody payload =>
             (url = baseUrl ++ lit "/answer"
              \/ url = baseUrl ++ lit "/answer/stream")
             /\ message payload = message request
             /\ options payload = options request
             /\ model payload
                = Some (match model request with
                        | Some m => m
                        | None => defaultModel c
                        end)
         | WithTargets.ImpressionBody text code =>
             url = baseUrl ++ lit "/impressions/register"
             /\ text <> [] /\ code <> []
         end
  | _ => True
  end.

(** ** [answerStream] and [answerStreamGenerator] with reads and callbacks
    that fail *)

Module WithFailures.
Section WithFailures.

Variable DecoderState : Type.
Variable decode : DecoderState -> bytes -> DecoderState * jsstring.
Variable newDecoder : DecoderState.
Variable J : Type.
Variable JSON_parse : jsstring -> option J.
Variable Options : Type.
Variable fetch : jsstring -> RequestInit Options -> FetchOutcome J.
Variable asError : J -> ErrorResponse.

(** How reading the body of a response ends: [None] when the read after
    the last chunk reports [done], [Some e] when that read rejects with
    [e]. *)
Variable bodyEnd : Response J -> option exn.

(** The callback: what its call number [k] does with its argument, return
    ([None]) or throw. *)
Variable onChunk : nat -> jsstring -> option exn.

(** The calls [onChunk(t)] for the values [calls] in turn, the first being
    call number [k]: the calls made, and the exception of the one that
    throws, which is then the last one made. *)
Fixpoint deliver (k : nat) (calls : list jsstring)
  : list jsstring * option exn :=
  match calls with
  | [] => ([], None)
  | t :: rest =>
      match onChunk k t with
      | Some e => ([t], Some e)
      | None => let '(made, r) := deliver (S k) rest in (t :: made, r)
      end
  end.

(** The [while (true)] loop (client.ts 155-190) with its exits by
    exception: the calls made, and the variables the loop ends with or the
    exception that leaves it.  A rejected [reader.read()] and a throwing
    [onChunk] are not caught; the body works on local variables only, so
    that nothing of an iteration cut short is left but the call made. *)
Fixpoint readLoop (d : DecoderState) (chunks : list bytes)
    (ending : option exn) (k : nat) (st : state J)
  : list jsstring * (exn + state J) :=
  match chunks with
  | [] =>
      match ending with
      | Some e => ([], inl e)
      | None => ([], inr st)
      end
  | value :: rest =>
      let '(d', text) := decode d value in
      let '(out, st', c) := loopBody JSON_parse st text in
      match deliver k out with
      | (made, Some e) => (made, inl e)
      | (made, None) =>
          match c with
          | Break => (made, inr st')
          | Continue =>
              let '(made', r) :=
                readLoop d' rest ending (k + length made) st' in
              (made ++ made', r)
          end
      end
  end.

(** The body of the [try] of [answerStream] (client.ts 154-218): the loop
    and, when the loop ends without an exception, the code after it. *)
Definition processStream (d0 : DecoderState) (chunks : list bytes)
    (ending : option exn) : list jsstring * (exn + option J) :=
  match readLoop d0 chunks ending 0 (initial J) with
  | (made1, inl e) => (made1, inl e)
  | (made1, inr st1) =>
      let '(out2, st2) := drain JSON_parse st1 in
      match deliver (length made1) out2 with
      | (made2, Some e) => (made1 ++ made2, inl e)
      | (made2, None) => (made1 ++ made2, inr (metadata st2))
      end
  end.

(** The loop of the generator (client.ts 272-309) with a read that can
    reject. *)
Fixpoint genLoop (d : DecoderState) (chunks : list bytes)
    (ending : option exn) (st : gstate)
  : list (yielded J) * (exn + gstate) :=
  match chunks with
  | [] =>
      match ending with
      | Some e => ([], inl e)
      | None => ([], inr st)
      end
  | value :: rest =>
      let '(d', text) := decode d value in
      let '(out, st', c) := genBody JSON_parse st text in
      match c with
      | Break => (out, inr st')
      | Continue =>
          let '(out', r) := genLoop d' rest ending st' in (out ++ out', r)
      end
  end.

(** The body of the [try] of the generator (client.ts 271-338). *)
Definition generateStream (d0 : DecoderState) (chunks : list bytes)
    (ending : option exn) : list (yielded J) * (exn + unit) :=
  match genLoop d0 chunks ending ([], []) with
  | (out1, inl e) => (out1, inl e)
  | (out1, inr st1) => (out1 ++ genDrain JSON_parse st1, inr tt)
  end.

Notation "x <- m ;; k" := (bind m (fun x => k))
  (at level 61, m at next level, right associativity).
Notation "m ;;; k" := (bind m (fun _ => k))
  (at level 61, right associativity).

(** [answerStream] (client.ts 112-224). *)
Definition answerStream (c : ThredClient) (request : AnswerRequest Options)
  : M J Options (option J) :=
  if messageMissing request then
    throw J Options (Error (lit "Message is required"))
  else
    response <- fetchWithTimeout fetch (baseUrl ++ lit "/answer/stream")
                  (post c (withModel c request)) (timeout c) ;;
    checkOk asError response ;;;
    match body response with
    | None => throw J Options (Error (lit "Response body is null"))
    | Some chunks =>
        tell [EGetReader] ;;;
        finallyRelease
          (let '(made, r) :=
             processStream newDecoder chunks (bodyEnd response) in
           (map EOnChunk made, r))
    end.

(** [answerStreamGenerator] (client.ts 231-342), driven by a consumer that
    iterates until the generator is done or throws. *)
Definition answerStreamGenerator (c : ThredClient)
    (request : AnswerRequest Options) : M J Options unit :=
  if messageMissing request then
    throw J Options (Error (lit "Message is required"))
  else
    response <- fetchWithTimeout fetch (baseUrl ++ lit "/answer/stream")
                  (post c (withModel c request)) (timeout c) ;;
    checkOk asError response ;;;
    match body response with
    | None => throw J Options (Error (lit "Response body is null"))
    | Some chunks =>
        tell [EGetReader] ;;;
        finallyRelease
          (let '(yields, r) :=
             generateStream newDecoder chunks (bodyEnd response) in
           (map EYield yields, r))
    end.

End WithFailures.
End WithFailures.

(** A network that answers every request with a body of the given chunks;
    reads that end well and reads that end with a rejection; a callback
    that returns and one that throws at its call number [n]. *)
Definition streaming (chunks : list bytes)
  : jsstring -> RequestInit unit -> FetchOutcome Json.json :=
  fun _ _ => Resolves (mkResponse 200 (lit "OK") None None (Some chunks)).
Definition readsEnd : Response Json.json -> option exn := fun _ => None.
Definition readFails : Response Json.json -> option exn :=
  fun _ => Some (Error (lit "read failed")).
Definition quiet : nat -> jsstring -> option exn := fun _ _ => None.
Definition throwsAt (n : nat) : nat -> jsstring -> option exn :=
  fun k _ => if Nat.eqb k n then Some (Error (lit "stop")) else None.

(** A network that is down and one that answers every request with the
    same body, for running the second and the first copy. *)
Definition down
  : jsstring -> WithTargets.Request unit -> FetchOutcome Json.json :=
  fun _ _ => Rejects NotAnError.
Definition answering (j : Json.json)
  : jsstring -> RequestInit unit -> FetchOutcome Json.json :=
  fun _ _ =>
    Resolves (mkResponse 200 (lit "OK") (Some (lit "application/json"))
                (Some j) None).

(** A network that accepts every request of the second copy and answers
    [null], and a reading of every result as one with the code [c1], a
    link and no response text. *)
Definition accepting
  : jsstring -> WithTargets.Request unit -> FetchOutcome Json.json :=
  fun _ _ =>
    Resolves (mkResponse 200 (lit "OK") (Some (lit "application/json"))
                (Some Json.JNull) (Some [helloStream])).
Definition codeOnly : Json.json -> option AnswerResponse :=
  fun _ =>
    Some (mkAnswer Undefined
            (Some (mkMetadata (Some (lit "l1")) (Some (lit "c1"))))).

(** A page with two elements, numbered 1 and 2. *)
Definition page (id : jsstring) : option N :=
  if eqs id (lit "answer") then Some 1%N
  else if eqs id (lit "link") then Some 2%N
  else None.

(** * Properties *)

(** ** Strings *)

Lemma startsWith_spec (pat s : jsstring) :
  startsWith pat s = true <-> exists r, s = pat ++ r.
Proof.
  revert s; induction pat as [|p pat IH]; intros s; simpl.
  - split; [intros _; now exists s | reflexivity].
  - destruct s as [|c s]; simpl.
    + split; [discriminate | intros [r Hr]; discriminate].
    + rewrite andb_true_iff, N.eqb_eq, IH. split.
      * intros [-> [r ->]]. now exists r.
      * intros [r Hr]. injection Hr as -> ->. split; [reflexivity | now exists r].
Qed.

Lemma startsWith_short (pat s t : jsstring) :
  length pat <= length s -> startsWith pat (s ++ t) = startsWith pat s.
Proof.
  revert s; induction pat as [|p pat IH]; intros s Hlen; simpl; [reflexivity|].
  destruct s as [|c s]; simpl in *; [lia|].
  rewrite IH by lia. reflexivity.
Qed.

Lemma indexOf_bound (s pat : jsstring) (i : nat) :
  indexOf s pat = Some i -> i + length pat <= length s.
Proof.
  revert i; induction s as [|c s IH]; intros i; simpl.
  - destruct pat; simpl; [|discriminate]. intros [= <-]. simpl. lia.
  - destruct (startsWith pat (c :: s)) eqn:E.
    + intros [= <-]. apply startsWith_spec in E as [r Hr].
      apply (f_equal (@length N)) in Hr. rewrite length_app in Hr.
      simpl in *. lia.
    + destruct (indexOf s pat) as [j|]; simpl; [|discriminate].
      intros [= <-]. specialize (IH j eq_refl). lia.
Qed.

Lemma indexOf_cut (s pat : jsstring) (i : nat) :
  indexOf s pat = Some i ->
  s = firstn i s ++ pat ++ skipn (i + length pat) s.
Proof.
  revert i; induction s as [|c s IH]; intros i; simpl.
  - destruct pat; simpl; [|discriminate]. now intros [= <-].
  - destruct (startsWith pat (c :: s)) eqn:E.
    + intros [= <-]. apply startsWith_spec in E as [r Hr].
      simpl. rewrite Hr at 1. f_equal. rewrite Hr.
      now rewrite skipn_app, skipn_all, Nat.sub_diag.
    + destruct (indexOf s pat) as [j|]; simpl; [|discriminate].
      intros [= <-]. simpl. f_equal. now apply IH.
Qed.

(** The first occurrence found in a string is still the first one after
    more text is appended. *)
Lemma indexOf_app (s t pat : jsstring) (i : nat) :
  indexOf s pat = Some i -> indexOf (s ++ t) pat = Some i.
Proof.
  revert i; induction s as [|c s IH]; intros i H.
  - simpl in H. destruct pat; simpl in H; [|discriminate].
    injection H as <-. destruct t; reflexivity.
  - pose proof (indexOf_bound _ _ H) as Hb.
    simpl in H. change ((c :: s) ++ t) with (c :: (s ++ t)).
    cbn [indexOf].
    change (c :: (s ++ t)) with ((c :: s) ++ t).
    rewrite startsWith_short by (simpl in *; lia).
    destruct (startsWith pat (c :: s)); [assumption|].
    destruct (indexOf s pat) as [j|]; simpl in H; [|discriminate].
    now rewrite (IH j eq_refl).
Qed.

Lemma indexOf_None_nil (s pat : jsstring) :
  indexOf s pat = None -> pat <> [].
Proof. intros H ->. destruct s; discriminate. Qed.

Lemma indexOf_None_prefix (a b pat : jsstring) :
  indexOf (a ++ b) pat = None -> indexOf a pat = None.
Proof.
  intros H. destruct (indexOf a pat) as [i|] eqn:E; [|reflexivity].
  rewrite (indexOf_app _ b _ E) in H. discriminate.
Qed.

Lemma indexOf_None_suffix (a b pat : jsstring) :
  indexOf (a ++ b) pat = None -> indexOf b pat = None.
Proof.
  induction a as [|c a IH]; [trivial|].
  change ((c :: a) ++ b) with (c :: (a ++ b)). cbn [indexOf].
  destruct (startsWith pat (c :: a ++ b)); [discriminate|].
  destruct (indexOf (a ++ b) pat); [discriminate | auto].
Qed.

Lemma indexOf_shift (a s pat : jsstring) (i : nat) :
  indexOf (a ++ s) pat = Some (length a + i) -> indexOf s pat = Some i.
Proof.
  induction a as [|c a IH]; [trivial|].
  change ((c :: a) ++ s) with (c :: (a ++ s)). cbn [indexOf length Nat.add].
  destruct (startsWith pat (c :: a ++ s)); [discriminate|].
  destruct (indexOf (a ++ s) pat) as [j|]; [|discriminate].
  cbn [option_map]. intros [= ->]. now apply IH.
Qed.

Lemma indexOf_not_before (a s pat : jsstring) (i : nat) :
  0 < length pat ->
  indexOf (a ++ s) pat = Some (length a + i) -> indexOf a pat = None.
Proof.
  intros Hpat H. destruct (indexOf a pat) as [j|] eqn:E; [|reflexivity].
  pose proof (indexOf_bound _ _ E) as Hb.
  rewrite (indexOf_app _ s _ E) in H. injection H as ->. lia.
Qed.

Lemma splitN_nonempty (n : nat) (s sep : jsstring) : splitN n s sep <> [].
Proof. destruct n; simpl; [|destruct (indexOf s sep)]; discriminate. Qed.

Lemma join_cons (sep x : jsstring) (xs : list jsstring) :
  xs <> [] -> join sep (x :: xs) = x ++ sep ++ join sep xs.
Proof. destruct xs; [congruence | reflexivity]. Qed.

(** Joining the pieces of a split with the separator gives the string
    back. *)
Lemma join_splitN (n : nat) (s sep : jsstring) :
  join sep (splitN n s sep) = s.
Proof.
  revert s; induction n as [|n IH]; intros s; simpl; [reflexivity|].
  destruct (indexOf s sep) as [p|] eqn:E; [|reflexivity].
  rewrite join_cons by apply splitN_nonempty.
  rewrite IH. symmetry. now apply indexOf_cut.
Qed.

(** The first piece of a split and the rest joined again, when the
    separator occurs. *)
Lemma split_at_first (s sep : jsstring) (p : nat) :
  sep <> [] -> indexOf s sep = Some p ->
  exists rest, split s sep = firstn p s :: rest /\ rest <> [] /\
               join sep rest = skipn (p + length sep) s.
Proof.
  intros Hsep H. unfold split.
  pose proof (indexOf_bound _ _ H) as Hb.
  destruct (length s) as [|n] eqn:El.
  - destruct sep; [congruence | simpl in Hb; lia].
  - simpl. rewrite H. eexists. split; [reflexivity|].
    split; [apply splitN_nonempty | apply join_splitN].
Qed.

Lemma split_absent (s sep : jsstring) :
  indexOf s sep = None -> split s sep = [s].
Proof.
  intros H. unfold split. destruct (length s); simpl; [|rewrite H]; reflexivity.
Qed.

Lemma indexOf_blank_of_delimiter (s : jsstring) (i : nat) :
  indexOf s delimiter = Some i ->
  exists p, indexOf s blankLine = Some p /\ p <= i.
Proof.
  revert i; induction s as [|c s IH]; intros i; [discriminate|].
  cbn [indexOf].
  destruct (startsWith delimiter (c :: s)) eqn:Ed.
  - intros [= <-]. exists 0. split; [|lia].
    apply startsWith_spec in Ed as [r Hr].
    assert (Hb : startsWith blankLine (c :: s) = true).
    { apply startsWith_spec. exists (LBRACE :: r). rewrite Hr. reflexivity. }
    now rewrite Hb.
  - destruct (indexOf s delimiter) as [j|]; cbn [option_map]; [|discriminate].
    intros [= <-]. destruct (IH j eq_refl) as (p & Hp & Hle).
    destruct (startsWith blankLine (c :: s)).
    + exists 0. split; [reflexivity | lia].
    + rewrite Hp. exists (S p). split; [reflexivity | lia].
Qed.

Lemma eqs_spec (a b : jsstring) : eqs a b = true <-> a = b.
Proof.
  revert b; induction a as [|x a IH]; intros [|y b]; simpl;
    try (split; [discriminate | congruence]); [tauto|].
  rewrite andb_true_iff, N.eqb_eq, IH. split; [intros [-> ->] | intros [= -> ->]]; auto.
Qed.

Lemma trimStart_whitespace (s : jsstring) :
  forallb isWhiteSpace s = true -> trimStart s = [].
Proof.
  induction s as [|c s IH]; simpl; [reflexivity|].
  rewrite andb_true_iff. intros [-> H]. auto.
Qed.

Lemma trim_whitespace (s : jsstring) :
  forallb isWhiteSpace s = true -> trim s = [].
Proof.
  intros H. unfold trim, trimEnd. now rewrite (trimStart_whitespace _ H).
Qed.

(** ** Subsequences and prefixes *)

Lemma subseq_refl (a : jsstring) : subseq a a.
Proof. induction a; [apply subseq_nil | now apply subseq_take]. Qed.

Lemma subseq_app_skip (a b c : jsstring) : subseq a b -> subseq a (c ++ b).
Proof. intros H. induction c; simpl; [assumption | now apply subseq_skip]. Qed.

Lemma subseq_app (a b c d : jsstring) :
  subseq a b -> subseq c d -> subseq (a ++ c) (b ++ d).
Proof.
  intros H. induction H; intros Hc; simpl.
  - now apply subseq_app_skip.
  - apply subseq_skip. auto.
  - apply subseq_take. auto.
Qed.

Lemma subseq_prefix (a b : jsstring) : subseq a (a ++ b).
Proof.
  rewrite <- (app_nil_r a) at 1.
  apply subseq_app; [apply subseq_refl | apply subseq_nil].
Qed.

Lemma prefix_refl (a : jsstring) : prefix a a.
Proof. exists []. now rewrite app_nil_r. Qed.

Lemma prefix_trans (a b c : jsstring) : prefix a b -> prefix b c -> prefix a c.
Proof. intros [t ->] [u ->]. exists (t ++ u). now rewrite app_assoc. Qed.

Lemma prefix_app (a t : jsstring) : prefix a (a ++ t).
Proof. now exists t. Qed.

(** ** The splitter *)

Section SplitterFacts.

Variable DecoderState : Type.
Variable decode : DecoderState -> bytes -> DecoderState * jsstring.
Variable J : Type.
Variable JSON_parse : jsstring -> option J.


Lemma appendIfAny_eq (acc text : jsstring) :
  appendIfAny acc text = (acc ++ text, if truthy text then [acc ++ text] else []).
Proof. destruct text; simpl; [now rewrite app_nil_r | reflexivity]. Qed.

Lemma yieldIfAny_eq (acc text : jsstring) :
  yieldIfAny J acc text
  = (acc ++ text, map YText (if truthy text then [acc ++ text] else [])).
Proof. destruct text; simpl; [now rewrite app_nil_r | reflexivity]. Qed.

(** *** The two shapes run the same algorithm *)

Lemma genBody_loopBody (st : state J) (text : jsstring) out st' c :
  loopBody JSON_parse st text = (out, st', c) ->
  genBody JSON_parse (buffer st, accumulatedText st) text
  = (map YText out ++ match c with
                      | Break => terminal (metadata st')
                      | Continue => []
                      end,
     (buffer st', accumulatedText st'), c).
Proof.
  unfold loopBody, genBody.
  destruct (indexOf (buffer st ++ text) delimiter) as [i|].
  - rewrite appendIfAny_eq, yieldIfAny_eq.
    destruct (JSON_parse _) as [m|]; intros [= <- <- <-]; simpl;
      [reflexivity | now rewrite app_nil_r].
  - intros [= <- <- <-]. reflexivity.
Qed.

Lemma loopBody_control (st : state J) (text : jsstring) out st' c :
  loopBody JSON_parse st text = (out, st', c) ->
  match c with
  | Continue => metadata st' = metadata st
  | Break => buffer st' = [] /\ exists m, metadata st' = Some m
  end.
Proof.
  unfold loopBody.
  destruct (indexOf (buffer st ++ text) delimiter) as [i|].
  - rewrite appendIfAny_eq.
    destruct (JSON_parse _) as [m|]; intros [= <- <- <-]; simpl; eauto.
  - intros [= <- <- <-]. reflexivity.
Qed.

Lemma genLoop_readLoop (chunks : list bytes) :
  forall d (st : state J) out st',
  metadata st = None ->
  readLoop decode JSON_parse d chunks st = (out, st') ->
  genLoop decode JSON_parse d chunks (buffer st, accumulatedText st)
  = (map YText out ++ terminal (metadata st'),
     (buffer st', accumulatedText st'))
  /\ (metadata st' = None \/ buffer st' = []).
Proof.
  induction chunks as [|value rest IH]; intros d st out st' Hm;
    cbn [readLoop genLoop].
  - intros [= <- <-]. rewrite Hm. auto.
  - destruct (decode d value) as [d' text].
    destruct (loopBody JSON_parse st text) as [[o1 s1] c] eqn:E.
    rewrite (genBody_loopBody _ _ E).
    pose proof (loopBody_control _ _ E) as Hc.
    destruct c.
    + destruct (readLoop decode JSON_parse d' rest s1) as [o2 s2] eqn:E2.
      intros [= <- <-].
      destruct (IH d' s1 o2 s2 ltac:(congruence) E2) as [-> Hr].
      split; [|assumption].
      now rewrite app_nil_r, map_app, app_assoc.
    + intros [= <- <-]. split; [reflexivity | tauto].
Qed.

Lemma genDrain_drain (st : state J) out st' :
  metadata st = None ->
  drain JSON_parse st = (out, st') ->
  genDrain JSON_parse (buffer st, accumulatedText st)
  = map YText out ++ terminal (metadata st').
Proof.
  intros Hm. unfold drain, genDrain.
  destruct (truthy (buffer st)).
  - destruct (1 <? length (split (buffer st) blankLine)).
    + rewrite appendIfAny_eq, yieldIfAny_eq.
      destruct (truthy (join _ _)).
      * destruct (JSON_parse _) as [m|]; intros [= <- <-]; simpl;
          [reflexivity|].
        now rewrite Hm, app_nil_r, map_app.
      * intros [= <- <-]. simpl. now rewrite Hm, app_nil_r.
    + intros [= <- <-]. simpl. now rewrite Hm.
  - intros [= <- <-]. simpl. now rewrite Hm.
Qed.

Lemma drain_empty (st : state J) : buffer st = [] -> drain JSON_parse st = ([], st).
Proof. intros H. unfold drain. now rewrite H. Qed.

(** What the generator yields is what [answerStream] passes to [onChunk],
    as strings, followed by what it returns, wrapped, if it is not
    [null]. *)
Lemma generateStream_processStream (d0 : DecoderState) (chunks : list bytes) :
  generateStream decode JSON_parse d0 chunks
  = map YText (fst (processStream decode JSON_parse d0 chunks))
    ++ terminal (snd (processStream decode JSON_parse d0 chunks)).
Proof.
  unfold generateStream, processStream.
  destruct (readLoop decode JSON_parse d0 chunks (initial J))
    as [o1 s1] eqn:E1.
  destruct (genLoop_readLoop chunks d0 (initial J) eq_refl E1) as [Hg Hs].
  match goal with
  | |- (let '(_, _) := ?g in _) = _ =>
      replace g with (map (@YText J) o1 ++ terminal (metadata s1),
                      (buffer s1, accumulatedText s1))
        by (symmetry; exact Hg)
  end.
  destruct Hs as [Hs|Hs].
  - destruct (drain JSON_parse s1) as [o2 s2] eqn:E2. cbn [fst snd].
    rewrite (genDrain_drain _ Hs E2), Hs. cbn [terminal].
    now rewrite app_nil_r, map_app, app_assoc.
  - rewrite (drain_empty _ Hs). cbn [fst snd].
    rewrite Hs. cbn [genDrain truthy]. now rewrite !app_nil_r.
Qed.

(** *** The accumulated text only grows *)

Lemma ascending_app a o1 b o2 c :
  ascending a o1 b -> ascending b o2 c -> ascending a (o1 ++ o2) c.
Proof.
  revert a; induction o1 as [|x o1 IH]; intros a; simpl.
  - intros Hab H2. destruct o2 as [|y o2]; simpl in *.
    + eapply prefix_trans; eassumption.
    + destruct H2 as [Hby H2]. split; [eapply prefix_trans; eassumption | assumption].
  - intros [Hax H1] H2. split; [assumption | now apply IH].
Qed.

Lemma ascending_prefix a out b :
  ascending a out b -> prefix a b /\ Forall (prefix a) out.
Proof.
  revert a; induction out as [|x out IH]; intros a; simpl.
  - intros H. split; [assumption | constructor].
  - intros [Hax H]. destruct (IH _ H) as [Hxb Hall]. split.
    + eapply prefix_trans; eassumption.
    + constructor; [assumption|].
      eapply Forall_impl; [|exact Hall]. intros y Hy.
      eapply prefix_trans; eassumption.
Qed.

Lemma ascending_monotone a out b : ascending a out b -> monotone out.
Proof.
  revert a; induction out as [|x out IH]; intros a H i j u v Hij Hi Hj.
  - destruct i; discriminate.
  - destruct H as [_ H]. destruct j as [|j]; [lia|]. simpl in Hj.
    destruct i as [|i]; simpl in Hi.
    + injection Hi as <-.
      destruct (ascending_prefix _ _ _ H) as [_ Hall].
      rewrite Forall_forall in Hall. apply Hall.
      eapply nth_error_In; eassumption.
    + eapply (IH _ H i j); [lia | eassumption | eassumption].
Qed.

Lemma last_cons_seed (o : list jsstring) (x a : jsstring) :
  last (x :: o) a = last o x.
Proof.
  revert x a; induction o as [|y o IH]; intros x a; [reflexivity|].
  change (last (x :: y :: o) a) with (last (y :: o) a).
  now rewrite !IH.
Qed.

Lemma last_app_seed (o1 o2 : list jsstring) (a : jsstring) :
  last (o1 ++ o2) a = last o2 (last o1 a).
Proof.
  revert a; induction o1 as [|x o1 IH]; intros a; [reflexivity|].
  change ((x :: o1) ++ o2) with (x :: (o1 ++ o2)).
  now rewrite !last_cons_seed, IH.
Qed.

Lemma trail_app a o1 b o2 c :
  trail a o1 b -> trail b o2 c -> trail a (o1 ++ o2) c.
Proof.
  intros [H1 L1] [H2 L2]. split; [eapply ascending_app; eassumption|].
  now rewrite last_app_seed, L1.
Qed.

Lemma trail_none a : trail a [] a.
Proof. split; [apply prefix_refl | reflexivity]. Qed.

Lemma trail_one a t : trail a [a ++ t] (a ++ t).
Proof. split; [split; [apply prefix_app | apply prefix_refl] | reflexivity]. Qed.

Lemma trail_if a t :
  trail a (if truthy t then [a ++ t] else []) (a ++ t).
Proof.
  destruct t; simpl; [rewrite app_nil_r; apply trail_none | apply trail_one].
Qed.

Lemma loopBody_trail (st : state J) (text : jsstring) out st' c :
  loopBody JSON_parse st text = (out, st', c) ->
  trail (accumulatedText st) out (accumulatedText st').
Proof.
  unfold loopBody.
  destruct (indexOf (buffer st ++ text) delimiter) as [i|].
  - rewrite appendIfAny_eq.
    destruct (JSON_parse _) as [m|]; intros [= <- <- <-]; apply trail_if.
  - intros [= <- <- <-]. apply trail_one.
Qed.

Lemma readLoop_trail (chunks : list bytes) :
  forall d (st : state J) out st',
  readLoop decode JSON_parse d chunks st = (out, st') ->
  trail (accumulatedText st) out (accumulatedText st').
Proof.
  induction chunks as [|value rest IH]; intros d st out st'; cbn [readLoop].
  - intros [= <- <-]. apply trail_none.
  - destruct (decode d value) as [d' text].
    destruct (loopBody JSON_parse st text) as [[o1 s1] c] eqn:E.
    apply loopBody_trail in E. destruct c.
    + destruct (readLoop decode JSON_parse d' rest s1) as [o2 s2] eqn:E2.
      intros [= <- <-]. eapply trail_app; [exact E | eapply IH; exact E2].
    + now intros [= <- <-].
Qed.

Lemma drain_trail (st : state J) out st' :
  drain JSON_parse st = (out, st') ->
  trail (accumulatedText st) out (accumulatedText st').
Proof.
  unfold drain.
  destruct (truthy (buffer st)).
  - destruct (1 <? length (split (buffer st) blankLine)).
    + rewrite appendIfAny_eq.
      destruct (truthy (join _ _)).
      * destruct (JSON_parse _) as [m|]; intros [= <- <-]; cbn [accumulatedText];
          [apply trail_if|].
        eapply trail_app; [apply trail_if | apply trail_one].
      * intros [= <- <-]. apply trail_if.
    + intros [= <- <-]. apply trail_one.
  - intros [= <- <-]. apply trail_none.
Qed.

Lemma processStream_trail (d0 : DecoderState) (chunks : list bytes) :
  exists final, trail [] (fst (processStream decode JSON_parse d0 chunks)) final.
Proof.
  unfold processStream.
  destruct (readLoop decode JSON_parse d0 chunks (initial J)) as [o1 s1] eqn:E1.
  destruct (drain JSON_parse s1) as [o2 s2] eqn:E2.
  exists (accumulatedText s2). cbn [fst].
  eapply trail_app; [exact (readLoop_trail _ _ _ E1) | exact (drain_trail _ E2)].
Qed.

(** *** No answer text is lost *)

Lemma firstn_app_le (a b : jsstring) (i : nat) :
  i <= length a -> firstn i (a ++ b) = firstn i a.
Proof.
  intros H. rewrite firstn_app.
  replace (i - length a) with 0 by lia. simpl. apply app_nil_r.
Qed.

(** At the delimiter the buffer is the text before it, a blank line, and a
    candidate that starts with the brace. *)
Lemma delimiter_cut (buf : jsstring) (i : nat) :
  indexOf buf delimiter = Some i ->
  buf = firstn i buf ++ blankLine ++ skipn (i + 2) buf
  /\ exists r, skipn (i + 2) buf = LBRACE :: r.
Proof.
  intros H. pose proof (indexOf_cut _ _ H) as Hcut.
  set (r := skipn (i + length delimiter) buf) in Hcut.
  assert (Hs : skipn i buf = delimiter ++ r).
  { apply (app_inv_head (firstn i buf)). rewrite firstn_skipn. exact Hcut. }
  assert (Hr : skipn (i + 2) buf = LBRACE :: r).
  { rewrite Nat.add_comm, <- skipn_skipn, Hs. reflexivity. }
  split; [|now exists r].
  rewrite Hr. exact Hcut.
Qed.

Lemma loopBody_accounted (D : jsstring) (st : state J) (text : jsstring)
    out st' c :
  accounted D st ->
  loopBody JSON_parse st text = (out, st', c) ->
  match c with
  | Continue => accounted (D ++ text) st'
  | Break =>
      exists A m, metadata st' = Some m /\
                  closedBy JSON_parse (D ++ text) A m /\
                  subseq A (accumulatedText st')
  end.
Proof.
  intros (flushed & X & HD & Hphase). unfold loopBody.
  destruct (indexOf (buffer st ++ text) delimiter) as [i|] eqn:Ei.
  - rewrite appendIfAny_eq. unfold substring, substringFrom.
    rewrite Nat.sub_0_r. cbn [skipn].
    assert (Hacc : exists X',
               accumulatedText st ++ firstn i (buffer st ++ text)
               = flushed ++ firstn i (buffer st ++ text) ++ X').
    { destruct Hphase as [[Hb Ha] | (i0 & Hi0 & Ha)].
      - exists []. now rewrite Ha, app_nil_r.
      - pose proof (indexOf_app _ text _ Hi0) as Hi0'.
        rewrite Ei in Hi0'. injection Hi0' as ->.
        rewrite firstn_app_le by (pose proof (indexOf_bound _ _ Hi0); lia).
        exists (X ++ firstn i0 (buffer st)). rewrite Ha.
        now rewrite <- !app_assoc. }
    destruct Hacc as [X' Hacc].
    destruct (delimiter_cut _ Ei) as [Hcut _].
    destruct (JSON_parse (skipn (i + 2) (buffer st ++ text))) as [m|] eqn:P;
      intros [= <- <- <-]; cbn [buffer accumulatedText metadata].
    + exists (flushed ++ firstn i (buffer st ++ text)), m.
      split; [reflexivity|]. split.
      * exists (skipn (i + 2) (buffer st ++ text)). split; [|exact P].
        rewrite HD, <- !app_assoc. f_equal. exact Hcut.
      * rewrite Hacc, app_assoc. apply subseq_prefix.
    + exists flushed, X'. split; [now rewrite HD, <- app_assoc|].
      right. exists i. split; assumption.
  - intros [= <- <- <-]. destruct Hphase as [[Hb Ha] | (i0 & Hi0 & Ha)].
    + exists (flushed ++ text), []. cbn [buffer accumulatedText].
      split; [now rewrite HD, Hb, !app_nil_r|].
      left. split; [reflexivity | now rewrite Ha, Hb].
    + rewrite (indexOf_app _ text _ Hi0) in Ei. discriminate.
Qed.

Lemma readLoop_accounted (chunks : list bytes) :
  forall d (st : state J) D out st',
  accounted D st -> metadata st = None ->
  readLoop decode JSON_parse d chunks st = (out, st') ->
  (metadata st' = None /\
   accounted (D ++ concat (decodeAll decode d chunks)) st')
  \/
  (exists n A m,
     metadata st' = Some m /\ buffer st' = [] /\
     closedBy JSON_parse
       (D ++ concat (decodeAll decode d (firstn n chunks))) A m /\
     subseq A (accumulatedText st')).
Proof.
  induction chunks as [|value rest IH]; intros d st D out st' Hacc Hm;
    cbn [readLoop decodeAll].
  - intros [= <- <-]. left. simpl. now rewrite app_nil_r.
  - destruct (decode d value) as [d' text] eqn:Ed.
    destruct (loopBody JSON_parse st text) as [[o1 s1] c] eqn:E.
    pose proof (loopBody_accounted _ Hacc E) as Hstep.
    pose proof (loopBody_control _ _ E) as Hc.
    destruct c.
    + destruct (readLoop decode JSON_parse d' rest s1) as [o2 s2] eqn:E2.
      intros [= <- <-].
      destruct (IH d' s1 (D ++ text) o2 s2 Hstep ltac:(congruence) E2)
        as [[Hn Ha] | (n & A & m & Hmeta & Hbuf & Hclosed & Hsub)].
      * left. split; [assumption|]. cbn [concat]. now rewrite app_assoc.
      * right. exists (S n), A, m. repeat split; try assumption.
        cbn [firstn decodeAll]. rewrite Ed. cbn [concat].
        now rewrite app_assoc.
    + intros [= <- <-]. destruct Hstep as (A & m & Hmeta & Hclosed & Hsub).
      right. exists 1, A, m. repeat split; try assumption; [tauto|].
      cbn [firstn decodeAll]. rewrite Ed. cbn [concat decodeAll].
      now rewrite app_nil_r.
Qed.

Lemma drain_accounted (D : jsstring) (st : state J) out st' :
  accounted D st -> metadata st = None ->
  drain JSON_parse st = (out, st') ->
  exists A, subseq A (accumulatedText st') /\
            match metadata st' with
            | None => D = A
            | Some m => closedBy JSON_parse D A m
            end.
Proof.
  intros (flushed & X & HD & Hphase) Hm. unfold drain.
  destruct Hphase as [[Hb Ha] | (i & Hi & Ha)].
  - rewrite Hb. cbn [truthy]. intros [= <- <-]. exists D. rewrite Hm.
    split; [|reflexivity]. rewrite HD, Hb, Ha, app_nil_r. apply subseq_refl.
  - destruct (indexOf_blank_of_delimiter _ Hi) as (p & Hp & Hle).
    pose proof (indexOf_bound _ _ Hi) as Hbound.
    change (length delimiter) with 3 in Hbound.
    assert (Hsep : blankLine <> []) by discriminate.
    destruct (split_at_first _ Hsep Hp) as (rest & Hsplit & Hrest & Hjoin).
    pose proof (indexOf_cut _ _ Hp) as Hcut.
    change (length blankLine) with 2 in Hjoin, Hcut.
    assert (Ht : truthy (buffer st) = true).
    { destruct (buffer st); [simpl in Hbound; lia | reflexivity]. }
    assert (Hcand : truthy (skipn (p + 2) (buffer st)) = true).
    { pose proof (length_skipn (p + 2) (buffer st)) as Hl.
      destruct (skipn (p + 2) (buffer st)); [simpl in Hl; lia | reflexivity]. }
    rewrite Ht, Hsplit.
    destruct rest as [|piece rest]; [congruence|].
    cbn [length Nat.ltb Nat.leb nth skipn]. rewrite Hjoin, Hcand.
    rewrite appendIfAny_eq.
    destruct (JSON_parse (skipn (p + 2) (buffer st))) as [m|] eqn:P;
      intros [= <- <-]; cbn [accumulatedText metadata].
    + exists (flushed ++ firstn p (buffer st)). split.
      * rewrite Ha, <- app_assoc.
        apply subseq_app; [apply subseq_refl|].
        rewrite <- app_assoc. apply subseq_app_skip, subseq_app_skip, subseq_refl.
      * exists (skipn (p + 2) (buffer st)). split; [|exact P].
        rewrite HD, <- app_assoc. f_equal. exact Hcut.
    + rewrite Hm. exists D. split; [|reflexivity].
      rewrite <- app_assoc.
      change (LF :: LF :: skipn (p + 2) (buffer st))
        with (blankLine ++ skipn (p + 2) (buffer st)).
      rewrite <- Hcut, Ha, HD, <- app_assoc.
      apply subseq_app; [apply subseq_refl|].
      rewrite <- app_assoc. apply subseq_app_skip, subseq_app_skip, subseq_refl.
Qed.

Lemma initial_accounted : accounted [] (initial J).
Proof. exists [], []. split; [reflexivity | left; split; reflexivity]. Qed.

Lemma textsOf_shape (calls : list jsstring) (returned : option J) :
  textsOf (map YText calls ++ terminal returned) = calls.
Proof.
  induction calls as [|t calls IH]; simpl; [now destruct returned | now f_equal].
Qed.

Lemma metasOf_shape (calls : list jsstring) (returned : option J) :
  metasOf (map YText calls ++ terminal returned)
  = match returned with Some m => [m] | None => [] end.
Proof. induction calls as [|t calls IH]; simpl; [now destruct returned | exact IH]. Qed.

(** C2.  Whatever the chunks, no answer text is lost and the metadata
    comes last: when [answerStream] returns [null], all the text decoded
    from the chunks can be read off, in order, the last value passed to
    [onChunk]; when it returns a metadata object, the text decoded from the
    chunks it read is some answer text, a blank line and the JSON text of
    that object, and the answer text can be read off the last value passed
    to [onChunk].  The generator yields the same strings and then, as its
    last value and at most once, the metadata object. *)
Theorem C2_answer_text_reflected_metadata_last
    (d0 : DecoderState) (chunks : list bytes) :
  let calls := fst (processStream decode JSON_parse d0 chunks) in
  let returned := snd (processStream decode JSON_parse d0 chunks) in
  match returned with
  | None => subseq (concat (decodeAll decode d0 chunks)) (last calls [])
  | Some m =>
      exists n A,
        closedBy JSON_parse
          (concat (decodeAll decode d0 (firstn n chunks))) A m /\
        subseq A (last calls [])
  end
  /\ generateStream decode JSON_parse d0 chunks
     = map YText calls ++ terminal returned
  /\ length (metasOf (generateStream decode JSON_parse d0 chunks)) <= 1.
Proof.
  cbv zeta. split; [|split].
  - unfold processStream.
    destruct (readLoop decode JSON_parse d0 chunks (initial J))
      as [o1 s1] eqn:E1.
    destruct (drain JSON_parse s1) as [o2 s2] eqn:E2. cbn [fst snd].
    assert (Hlast : last (o1 ++ o2) [] = accumulatedText s2).
    { destruct (readLoop_trail _ _ _ E1) as [_ L1].
      destruct (drain_trail _ E2) as [_ L2].
      rewrite last_app_seed. cbn [initial accumulatedText] in L1.
      now rewrite L1. }
    rewrite Hlast.
    destruct (readLoop_accounted chunks d0 initial_accounted eq_refl E1)
      as [[Hn Hacc] | (n & A & m & Hmeta & Hbuf & Hclosed & Hsub)].
    + destruct (drain_accounted Hacc Hn E2) as (A & Hsub & Hres).
      cbn [app] in Hres.
      destruct (metadata s2) as [m|].
      * exists (length chunks), A. rewrite firstn_all. split; assumption.
      * now subst A.
    + rewrite (drain_empty _ Hbuf) in E2. injection E2 as <- <-.
      rewrite Hmeta. exists n, A. split; assumption.
  - apply generateStream_processStream.
  - rewrite generateStream_processStream, metasOf_shape.
    destruct (snd _); simpl; lia.
Qed.

(** C8.  The values of the accumulated text that [answerStream] passes to
    [onChunk], and the strings the generator yields, only grow: each one
    starts with every one delivered before it. *)
Theorem C8_accumulated_text_monotone (d0 : DecoderState) (chunks : list bytes) :
  monotone (fst (processStream decode JSON_parse d0 chunks))
  /\ monotone (textsOf (generateStream decode JSON_parse d0 chunks)).
Proof.
  destruct (processStream_trail d0 chunks) as [final [Hasc _]].
  rewrite generateStream_processStream, textsOf_shape.
  split; eapply ascending_monotone; exact Hasc.
Qed.

(** C4.  On the same chunks the two shapes deliver the same events: the
    strings the generator yields are the arguments of the [onChunk] calls
    of [answerStream], in order, and the metadata objects it yields are the
    one [answerStream] returns, or none when it returns [null]. *)
Theorem C4_generator_agrees_with_callback
    (d0 : DecoderState) (chunks : list bytes) :
  textsOf (generateStream decode JSON_parse d0 chunks)
  = fst (processStream decode JSON_parse d0 chunks)
  /\ metasOf (generateStream decode JSON_parse d0 chunks)
     = match snd (processStream decode JSON_parse d0 chunks) with
       | Some m => [m]
       | None => []
       end.
Proof.
  rewrite generateStream_processStream.
  split; [apply textsOf_shape | apply metasOf_shape].
Qed.

(** *** Streams without the delimiter *)

Lemma readLoop_no_delimiter (chunks : list bytes) :
  forall d acc (meta : option J),
  indexOf (concat (decodeAll decode d chunks)) delimiter = None ->
  exists out,
    readLoop decode JSON_parse d chunks (mkState [] acc meta)
    = (out, mkState [] (acc ++ concat (decodeAll decode d chunks)) meta).
Proof.
  induction chunks as [|value rest IH]; intros d acc meta;
    cbn [readLoop decodeAll].
  - intros _. exists []. cbn [concat]. now rewrite app_nil_r.
  - destruct (decode d value) as [d' text]. cbn [concat]. intros H.
    pose proof (indexOf_None_prefix _ _ _ H) as Htext.
    pose proof (indexOf_None_suffix _ _ _ H) as Hrest.
    unfold loopBody. cbn [buffer accumulatedText metadata app].
    rewrite Htext.
    destruct (IH d' (acc ++ text) meta Hrest) as [out Hout].
    rewrite Hout. eexists. now rewrite <- app_assoc.
Qed.

(** A stream in which the delimiter never occurs, however it is cut into
    chunks: [answerStream] returns [null] and the last value it passes to
    [onChunk] is the whole decoded text. *)
Lemma processStream_no_delimiter (d0 : DecoderState) (chunks : list bytes) :
  indexOf (concat (decodeAll decode d0 chunks)) delimiter = None ->
  snd (processStream decode JSON_parse d0 chunks) = None
  /\ last (fst (processStream decode JSON_parse d0 chunks)) []
     = concat (decodeAll decode d0 chunks).
Proof.
  intros H. unfold processStream, initial.
  destruct (readLoop_no_delimiter chunks d0 [] None H) as [out Hout].
  pose proof (readLoop_trail _ _ _ Hout) as [_ Hlast].
  rewrite Hout. cbn [drain truthy buffer fst snd metadata].
  rewrite app_nil_r. split; [reflexivity | exact Hlast].
Qed.

(** *** Streams whose metadata arrives in one chunk *)

Lemma readLoop_flushes_then (before : list bytes) :
  forall d acc (meta : option J) rest,
  indexOf (concat (decodeAll decode d before)) delimiter = None ->
  exists out,
    readLoop decode JSON_parse d (before ++ rest) (mkState [] acc meta)
    = (out ++ fst (readLoop decode JSON_parse (decoderAfter decode d before) rest
                     (mkState [] (acc ++ concat (decodeAll decode d before)) meta)),
       snd (readLoop decode JSON_parse (decoderAfter decode d before) rest
              (mkState [] (acc ++ concat (decodeAll decode d before)) meta))).
Proof.
  induction before as [|value before IH]; intros d acc meta rest;
    cbn [app readLoop decodeAll decoderAfter].
  - intros _. exists []. cbn [concat app]. rewrite app_nil_r.
    now destruct (readLoop decode JSON_parse d rest (mkState [] acc meta)).
  - destruct (decode d value) as [d' text]. cbn [concat fst]. intros H.
    pose proof (indexOf_None_prefix _ _ _ H) as Htext.
    pose proof (indexOf_None_suffix _ _ _ H) as Hrest.
    unfold loopBody. cbn [buffer accumulatedText metadata app].
    rewrite Htext.
    destruct (IH d' (acc ++ text) meta rest Hrest) as [out Hout].
    exists ((acc ++ text) :: out). rewrite Hout.
    now rewrite <- !(app_assoc acc text).
Qed.

(** The stream is the answer text [T], a blank line and the JSON text of
    [m], and the first delimiter in it is the one after [T].  When the
    chunks end inside [T] only, so that the rest of [T], the blank line and
    the JSON text arrive together, [answerStream] returns [m] and the last
    value it passes to [onChunk] is [T], wherever the chunks end. *)
Lemma processStream_metadata_in_one_chunk
    (d0 d' : DecoderState) (before : list bytes) (value : bytes)
    (rest : list bytes) (T Tlast Jtext : jsstring) (m : J) :
  indexOf (T ++ blankLine ++ Jtext) delimiter = Some (length T) ->
  JSON_parse Jtext = Some m ->
  T = concat (decodeAll decode d0 before) ++ Tlast ->
  decode (decoderAfter decode d0 before) value
  = (d', Tlast ++ blankLine ++ Jtext) ->
  snd (processStream decode JSON_parse d0 (before ++ value :: rest)) = Some m
  /\ last (fst (processStream decode JSON_parse d0 (before ++ value :: rest))) []
     = T.
Proof.
  intros Hi Hparse HT Hdec. subst T.
  rewrite <- app_assoc, length_app in Hi.
  assert (Hpat : 0 < length delimiter) by (simpl; lia).
  pose proof (indexOf_not_before _ _ _ _ Hpat Hi) as Hbefore.
  apply indexOf_shift in Hi.
  destruct (readLoop_flushes_then before d0 [] None (value :: rest) Hbefore)
    as [out Hout].
  assert (Hstep :
    readLoop decode JSON_parse (decoderAfter decode d0 before) (value :: rest)
      (mkState [] ([] ++ concat (decodeAll decode d0 before)) None)
    = (if truthy Tlast then [concat (decodeAll decode d0 before) ++ Tlast] else [],
       mkState [] (concat (decodeAll decode d0 before) ++ Tlast) (Some m))).
  { cbn [readLoop]. rewrite Hdec. unfold loopBody.
    cbn [buffer accumulatedText metadata app]. rewrite Hi.
    unfold substring, substringFrom. rewrite Nat.sub_0_r. cbn [skipn].
    rewrite firstn_app_le, firstn_all by lia.
    rewrite skipn_app, skipn_all2 by lia.
    replace (length Tlast + 2 - length Tlast) with 2 by lia.
    cbn [app skipn blankLine]. rewrite Hparse, appendIfAny_eq. reflexivity. }
  rewrite Hstep in Hout. cbn [fst snd] in Hout.
  pose proof (readLoop_trail _ _ _ Hout) as [_ Hlast].
  unfold processStream, initial. rewrite Hout.
  cbn [drain truthy buffer fst snd metadata accumulatedText] in *.
  rewrite app_nil_r. split; [reflexivity | exact Hlast].
Qed.

(** *** Streams whose metadata arrives in two chunks *)

(** The first chunk brings the answer text [T], the blank line and the
    start [J1] of the JSON text, the second chunk the rest [J2]: the first
    read appends [T]; the second read finds the delimiter where it was and
    appends [T] again. *)
Lemma processStream_metadata_in_two_chunks
    (d0 d1 d2 : DecoderState) (v1 v2 : bytes) (rest : list bytes)
    (T J1 J2 : jsstring) (m : J) :
  T <> [] ->
  indexOf (T ++ blankLine ++ J1) delimiter = Some (length T) ->
  JSON_parse J1 = None ->
  JSON_parse (J1 ++ J2) = Some m ->
  decode d0 v1 = (d1, T ++ blankLine ++ J1) ->
  decode d1 v2 = (d2, J2) ->
  processStream decode JSON_parse d0 (v1 :: v2 :: rest)
  = ([T; T ++ T], Some m).
Proof.
  intros HT Hi Hp1 Hp2 Hd1 Hd2.
  assert (Hfirst : forall t, firstn (length T) ((T ++ blankLine ++ J1) ++ t) = T).
  { intros t. rewrite <- app_assoc, firstn_app_le, firstn_all by lia.
    reflexivity. }
  assert (Hskip : forall t,
             skipn (length T + 2) ((T ++ blankLine ++ J1) ++ t) = J1 ++ t).
  { intros t. rewrite <- !app_assoc, skipn_app, skipn_all2 by lia.
    replace (length T + 2 - length T) with 2 by lia. reflexivity. }
  assert (Htruthy : truthy T = true) by (destruct T; [congruence | reflexivity]).
  unfold processStream, initial. cbn [readLoop]. rewrite Hd1.
  unfold loopBody at 1. cbn [buffer accumulatedText metadata app].
  rewrite Hi, appendIfAny_eq. unfold substring, substringFrom.
  rewrite Nat.sub_0_r. cbn [skipn].
  pose proof (Hfirst []) as Hfirst0. pose proof (Hskip []) as Hskip0.
  rewrite app_nil_r in Hfirst0. rewrite !app_nil_r in Hskip0.
  rewrite Hfirst0, Hskip0, Hp1, Htruthy, Hd2. cbn [app].
  unfold loopBody. cbn [buffer accumulatedText metadata app].
  rewrite (indexOf_app _ J2 _ Hi), appendIfAny_eq.
  unfold substring, substringFrom. rewrite Nat.sub_0_r. cbn [skipn].
  rewrite Hfirst, Hskip, Hp2, Htruthy.
  cbn [drain truthy buffer app metadata]. reflexivity.
Qed.

(** *** The code after the loop *)

(** What the code after the loop does with a buffer that holds a blank
    line followed by something: the text before the first blank line is
    appended (and delivered when it is not empty), the rest is parsed; when
    it does not parse it is appended too, after a blank line. *)
Lemma drain_at_blank_line (st : state J) (p : nat) :
  indexOf (buffer st) blankLine = Some p ->
  p + 2 < length (buffer st) ->
  drain JSON_parse st
  = let textPart := firstn p (buffer st) in
    let metadataPart := skipn (p + 2) (buffer st) in
    let acc := accumulatedText st ++ textPart in
    let out := if truthy textPart then [acc] else [] in
    match JSON_parse metadataPart with
    | Some m => (out, mkState (buffer st) acc (Some m))
    | None =>
        (out ++ [acc ++ blankLine ++ metadataPart],
         mkState (buffer st) (acc ++ blankLine ++ metadataPart) (metadata st))
    end.
Proof.
  intros Hp Hlen. unfold drain.
  assert (Hsep : blankLine <> []) by discriminate.
  destruct (split_at_first _ Hsep Hp) as (rest & Hsplit & Hrest & Hjoin).
  change (length blankLine) with 2 in Hjoin.
  assert (Ht : truthy (buffer st) = true).
  { destruct (buffer st); [simpl in Hlen; lia | reflexivity]. }
  assert (Hcand : truthy (skipn (p + 2) (buffer st)) = true).
  { pose proof (length_skipn (p + 2) (buffer st)) as Hl.
    destruct (skipn (p + 2) (buffer st)); [simpl in Hl; lia | reflexivity]. }
  rewrite Ht, Hsplit.
  destruct rest as [|piece rest]; [congruence|].
  cbn [length Nat.ltb Nat.leb nth skipn]. rewrite Hjoin, Hcand.
  rewrite appendIfAny_eq. cbv zeta.
  destruct (JSON_parse _); reflexivity.
Qed.

(** The buffer the loop leaves behind, if any, holds the delimiter: the
    code after the loop always finds more than one piece. *)
Lemma drain_single_piece_unreached (D : jsstring) (st : state J) :
  accounted D st -> buffer st <> [] ->
  1 < length (split (buffer st) blankLine).
Proof.
  intros (flushed & X & _ & [[Hb _] | (i & Hi & _)]) Hne; [contradiction|].
  destruct (indexOf_blank_of_delimiter _ Hi) as (p & Hp & _).
  assert (Hsep : blankLine <> []) by discriminate.
  destruct (split_at_first _ Hsep Hp) as (rest & -> & Hrest & _).
  destruct rest; [congruence | simpl; lia].
Qed.

(** *** What is parsed *)

Lemma In_skipn_le (l : jsstring) (x : N) (a b : nat) :
  a <= b -> In x (skipn b l) -> In x (skipn a l).
Proof.
  intros Hle Hin. replace b with ((b - a) + a) in Hin by lia.
  rewrite <- skipn_skipn in Hin.
  rewrite <- (firstn_skipn (b - a) (skipn a l)). apply in_or_app. now right.
Qed.

Lemma loopBody_parsed (st : state J) (text : jsstring) out st' :
  loopBody JSON_parse st text = (out, st', Break) ->
  exists t, In LBRACE t /\ JSON_parse t = metadata st'.
Proof.
  unfold loopBody.
  destruct (indexOf (buffer st ++ text) delimiter) as [i|] eqn:Ei;
    [|discriminate].
  rewrite appendIfAny_eq. unfold substringFrom.
  destruct (delimiter_cut _ Ei) as [_ [r Hr]].
  destruct (JSON_parse _) as [m|] eqn:P; intros [= <- <-].
  eexists. split; [|exact P]. rewrite Hr. now left.
Qed.

Lemma readLoop_parsed (chunks : list bytes) :
  forall d (st : state J) out st',
  readLoop decode JSON_parse d chunks st = (out, st') ->
  metadata st' = metadata st
  \/ exists t, In LBRACE t /\ JSON_parse t = metadata st'.
Proof.
  induction chunks as [|value rest IH]; intros d st out st'; cbn [readLoop].
  - intros [= <- <-]. now left.
  - destruct (decode d value) as [d' text].
    destruct (loopBody JSON_parse st text) as [[o1 s1] c] eqn:E.
    destruct c.
    + pose proof (loopBody_control _ _ E) as Hc. cbn in Hc.
      destruct (readLoop decode JSON_parse d' rest s1) as [o2 s2] eqn:E2.
      intros [= <- <-]. destruct (IH _ _ _ _ E2) as [Hs|Hp]; [left|right].
      * congruence.
      * exact Hp.
    + intros [= <- <-]. right. exact (loopBody_parsed _ _ E).
Qed.

(** The metadata [answerStream] returns is the value of a text that holds
    a brace. *)
Lemma processStream_returns_parsed_brace
    (d0 : DecoderState) (chunks : list bytes) (m : J) :
  snd (processStream decode JSON_parse d0 chunks) = Some m ->
  exists text, In LBRACE text /\ JSON_parse text = Some m.
Proof.
  unfold processStream.
  destruct (readLoop decode JSON_parse d0 chunks (initial J)) as [o1 s1] eqn:E1.
  destruct (drain JSON_parse s1) as [o2 s2] eqn:E2. cbn [snd]. intros Hm.
  destruct (readLoop_accounted chunks d0 initial_accounted eq_refl E1)
    as [[Hn Hacc] | (n & A & m' & Hmeta & Hbuf & _)].
  - destruct Hacc as (flushed & X & _ & [[Hb _] | (i & Hi & _)]).
    + rewrite (drain_empty _ Hb) in E2. injection E2 as <- <-. congruence.
    + destruct (indexOf_blank_of_delimiter _ Hi) as (p & Hp & Hle).
      pose proof (indexOf_bound _ _ Hi) as Hbound.
      change (length delimiter) with 3 in Hbound.
      rewrite (drain_at_blank_line _ Hp) in E2 by lia. cbv zeta in E2.
      destruct (delimiter_cut _ Hi) as [_ [r Hr]].
      exists (skipn (p + 2) (buffer s1)). split.
      * apply In_skipn_le with (b := i + 2); [lia|]. rewrite Hr. now left.
      * destruct (JSON_parse (skipn (p + 2) (buffer s1))) as [m0|];
          injection E2 as <- <-; cbn [metadata] in Hm; congruence.
  - rewrite (drain_empty _ Hbuf) in E2. injection E2 as <- <-.
    destruct (readLoop_parsed _ _ _ E1) as [Hs | (t & Hin & Hp)].
    + cbn in Hs. congruence.
    + exists t. split; [exact Hin | congruence].
Qed.

(** *** Single reads *)

Lemma skipn_app_le (a b : jsstring) (n : nat) :
  n <= length a -> skipn n (a ++ b) = skipn n a ++ b.
Proof.
  intros H. rewrite skipn_app. now replace (n - length a) with 0 by lia.
Qed.


(** C9.  When the delimiter is at the very start of the pending buffer the
    read delivers no text: nothing is passed to [onChunk] and the generator
    yields no string.  The candidate, which starts at the brace, is parsed
    all the same, and the outcome of the read is the outcome of that
    parse. *)
Theorem C9_delimiter_at_start_no_text_event (st : state J) (text : jsstring) :
  indexOf (buffer st ++ text) delimiter = Some 0 ->
  (exists r, skipn 2 (buffer st ++ text) = LBRACE :: r)
  /\ loopBody JSON_parse st text
     = match JSON_parse (skipn 2 (buffer st ++ text)) with
       | Some m => ([], mkState [] (accumulatedText st) (Some m), Break)
       | None =>
           ([], mkState (buffer st ++ text) (accumulatedText st) (metadata st),
            Continue)
       end
  /\ genBody JSON_parse (buffer st, accumulatedText st) text
     = match JSON_parse (skipn 2 (buffer st ++ text)) with
       | Some m => ([YMeta m], ([], accumulatedText st), Break)
       | None => ([], (buffer st ++ text, accumulatedText st), Continue)
       end.
Proof.
  intros Hi. split; [exact (proj2 (delimiter_cut _ Hi))|].
  unfold loopBody, genBody. rewrite Hi.
  unfold substring, substringFrom. cbn [Nat.sub Nat.add firstn appendIfAny yieldIfAny truthy].
  destruct (JSON_parse _); split; reflexivity.
Qed.

(** C10.  A chunk that decodes to the empty string while the pending
    buffer is empty still makes a text event: the read passes the unchanged
    accumulated text to [onChunk] (the generator yields it) and leaves the
    variables as they were, so that the same value is delivered again. *)
Theorem C10_empty_chunk_repeats_accumulated_text
    (d d' : DecoderState) (value : bytes) (rest : list bytes)
    (acc : jsstring) (meta : option J) :
  decode d value = (d', []) ->
  readLoop decode JSON_parse d (value :: rest) (mkState [] acc meta)
  = (acc :: fst (readLoop decode JSON_parse d' rest (mkState [] acc meta)),
     snd (readLoop decode JSON_parse d' rest (mkState [] acc meta)))
  /\ genLoop decode JSON_parse d (value :: rest) ([], acc)
     = (YText acc :: fst (genLoop decode JSON_parse d' rest ([], acc)),
        snd (genLoop decode JSON_parse d' rest ([], acc))).
Proof.
  intros Hd. cbn [readLoop genLoop]. rewrite Hd.
  unfold loopBody, genBody. cbn [buffer accumulatedText metadata app indexOf
    startsWith delimiter].
  rewrite app_nil_r. split.
  - now destruct (readLoop decode JSON_parse d' rest (mkState [] acc meta)).
  - match goal with
    | |- (let '(_, _) := ?X in _) = _ =>
        change ((let '(o, s) := X in (YText acc :: o, s))
                = (YText acc :: fst X, snd X));
        now destruct X
    end.
Qed.

End SplitterFacts.

(** ** The request methods and the error classifier *)

Section ClientFacts.

Variable DecoderState : Type.
Variable decode : DecoderState -> bytes -> DecoderState * jsstring.
Variable newDecoder : DecoderState.
Variable J : Type.
Variable JSON_parse : jsstring -> option J.
Variable Options : Type.
Variable fetch : jsstring -> RequestInit Options -> FetchOutcome J.
Variable asError : J -> ErrorResponse.

Lemma messageMissing_blank (request : AnswerRequest Options) :
  forallb isWhiteSpace (message request) = true ->
  messageMissing request = true.
Proof.
  intros H. unfold messageMissing. rewrite (trim_whitespace _ H).
  apply orb_true_r.
Qed.

(** C6.  A request whose message is empty or made of white space only is
    refused by each of the three methods with the error "Message is
    required", and nothing has happened by then: no [fetch] was issued, no
    reader was taken, no callback ran and nothing was yielded. *)
Theorem C6_blank_message_fails_before_network
    (c : ThredClient) (request : AnswerRequest Options) :
  forallb isWhiteSpace (message request) = true ->
  answer fetch asError c request
  = ([], inl (Error (lit "Message is required")))
  /\ answerStream decode newDecoder JSON_parse fetch asError c request
     = ([], inl (Error (lit "Message is required")))
  /\ answerStreamGenerator decode newDecoder JSON_parse fetch asError c request
     = ([], inl (Error (lit "Message is required"))).
Proof.
  intros H. apply messageMissing_blank in H.
  unfold answer, answerStream, answerStreamGenerator. rewrite H.
  repeat split.
Qed.

(** The body [handleApiError] reads: the parsed body when the content type
    says JSON and [response.json()] succeeds. *)
Lemma handleApiError_shape (response : Response ErrorResponse) :
  exists cls message errorData,
    handleApiError response
    = Thred cls message
        (Some (if N.eqb (status response) 400 then 400%N
               else if N.eqb (status response) 401 then 401%N
               else if N.eqb (status response) 500 then 500%N
               else status response))
        errorData
    /\ cls = (if N.eqb (status response) 400 then ValidationError
              else if N.eqb (status response) 401 then AuthenticationError
              else if N.eqb (status response) 500 then ServerError
              else ThredError)
    /\ errorData = match contentType response with
                   | Some ct =>
                       if includes ct (lit "application/json")
                       then json response else None
                   | None => None
                   end
    /\ message = orElse (match errorData with
                         | Some e => er_message e
                         | None => None
                         end)
                   (orElse (option_map er_error errorData)
                      (statusText response)).
Proof.
  unfold handleApiError.
  destruct (N.eqb (status response) 400);
    [|destruct (N.eqb (status response) 401);
      [|destruct (N.eqb (status response) 500)]];
    do 3 eexists; repeat split.
Qed.

(** C7.  A response that is not a success is turned into an error by its
    status alone: 400 gives a [ValidationError], 401 an
    [AuthenticationError], 500 a [ServerError], any other status a
    [ThredError]; the error carries that status, and the parsed body when
    there is one.  When the body cannot be parsed the message is the status
    text.  A [fetch] rejected with an [Error] named [AbortError] gives a
    [TimeoutError], any other rejection a [NetworkError].  The methods
    throw the classified error for every response whose [ok] is false. *)
Theorem C7_errors_classified_by_status_and_transport :
  (forall response : Response ErrorResponse,
     (status response = 400%N ->
      classOf (handleApiError response) = Some ValidationError) /\
     (status response = 401%N ->
      classOf (handleApiError response) = Some AuthenticationError) /\
     (status response = 500%N ->
      classOf (handleApiError response) = Some ServerError) /\
     (status response <> 400%N -> status response <> 401%N ->
      status response <> 500%N ->
      classOf (handleApiError response) = Some ThredError) /\
     statusCodeOf (handleApiError response) = Some (status response) /\
     (forall ct b,
        contentType response = Some ct ->
        includes ct (lit "application/json") = true ->
        json response = Some b ->
        responseOf (handleApiError response) = Some b) /\
     (json response = None ->
      messageOf (handleApiError response) = statusText response /\
      responseOf (handleApiError response) = None))
  /\ (forall url init t name msg,
        fetch url init = Rejects (ErrorObject name msg) ->
        (name = lit "AbortError" ->
         exists m, fetchWithTimeout fetch url init t
                   = ([EFetch url init], inl (Thred TimeoutError m None None))) /\
        (name <> lit "AbortError" ->
         fetchWithTimeout fetch url init t
         = ([EFetch url init], inl (Thred NetworkError msg None None))))
  /\ (forall url init t,
        fetch url init = Rejects NotAnError ->
        fetchWithTimeout fetch url init t
        = ([EFetch url init],
           inl (Thred NetworkError (lit "Network request failed") None None)))
  /\ (forall response : Response J,
        ok response = false ->
        checkOk (Options:=Options) asError response
        = ([], inl (handleApiError (errorView asError response)))).
Proof.
  split; [|split; [|split]].
  - intros response.
    destruct (handleApiError_shape response)
      as (cls & message & errorData & -> & Hcls & Hdata & Hmsg).
    cbn [classOf statusCodeOf responseOf messageOf].
    repeat match goal with |- _ /\ _ => split end.
    + intros H. now rewrite Hcls, H.
    + intros H. now rewrite Hcls, H.
    + intros H. now rewrite Hcls, H.
    + intros H4 H1 H5. rewrite Hcls.
      apply N.eqb_neq in H4, H1, H5. now rewrite H4, H1, H5.
    + destruct (N.eqb_spec (status response) 400) as [->|_]; [reflexivity|].
      destruct (N.eqb_spec (status response) 401) as [->|_]; [reflexivity|].
      destruct (N.eqb_spec (status response) 500) as [->|_]; reflexivity.
    + intros ct b Hct Hinc Hjson. now rewrite Hdata, Hct, Hinc.
    + intros Hjson.
      assert (Hnone : errorData = None).
      { rewrite Hdata, Hjson. destruct (contentType response) as [ct|];
          [destruct (includes ct _)|]; reflexivity. }
      rewrite Hmsg, Hnone. split; reflexivity.
  - intros url init t name msg Hf. unfold fetchWithTimeout. rewrite Hf.
    split.
    + intros ->. eexists. reflexivity.
    + intros Hne. destruct (eqs name (lit "AbortError")) eqn:E;
        [apply eqs_spec in E; contradiction | reflexivity].
  - intros url init t Hf. unfold fetchWithTimeout. now rewrite Hf.
  - intros response Hok. unfold checkOk. now rewrite Hok.
Qed.

(** The two streaming methods on a successful response with a body: one
    [fetch], the reader taken, the events of the splitter, and the reader
    released at the end. *)
Lemma answerStream_on_body (c : ThredClient) (request : AnswerRequest Options)
    (response : Response J) (chunks : list bytes) :
  messageMissing request = false ->
  fetch (baseUrl ++ lit "/answer/stream") (post c (withModel c request))
  = Resolves response ->
  ok response = true ->
  body response = Some chunks ->
  answerStream decode newDecoder JSON_parse fetch asError c request
  = ([EFetch (baseUrl ++ lit "/answer/stream") (post c (withModel c request));
      EGetReader]
     ++ map EOnChunk (fst (processStream decode JSON_parse newDecoder chunks))
     ++ [EReleaseLock],
     inr (snd (processStream decode JSON_parse newDecoder chunks)))
  /\ answerStreamGenerator decode newDecoder JSON_parse fetch asError c request
     = ([EFetch (baseUrl ++ lit "/answer/stream") (post c (withModel c request));
         EGetReader]
        ++ map EYield (generateStream decode JSON_parse newDecoder chunks)
        ++ [EReleaseLock],
        inr tt).
Proof.
  intros Hmsg Hfetch Hok Hbody.
  unfold answerStream, answerStreamGenerator, fetchWithTimeout, checkOk,
    finallyRelease, bind, tell, ret.
  rewrite Hmsg, Hfetch. cbn beta iota. rewrite Hok. cbn [negb].
  cbn beta iota. rewrite Hbody.
  destruct (processStream decode JSON_parse newDecoder chunks) as [calls returned].
  cbn [fst snd app]. rewrite !app_nil_r. split; reflexivity.
Qed.

End ClientFacts.

(** ** The decoder on chunks *)

(** Decoding a chunk in two parts gives the same text as decoding it
    whole. *)
Lemma Utf8_decode_app (d : Utf8.decoder) (a b : bytes) :
  Utf8.decode d (a ++ b)
  = (fst (Utf8.decode (fst (Utf8.decode d a)) b),
     snd (Utf8.decode d a) ++ snd (Utf8.decode (fst (Utf8.decode d a)) b)).
Proof.
  revert d; induction a as [|x a IH]; intros d; cbn [app Utf8.decode].
  - cbn [fst snd app]. now destruct (Utf8.decode d b).
  - destruct (Utf8.handler d x) as [d1 o1]. rewrite IH.
    destruct (Utf8.decode d1 a) as [d2 o2]. cbn [fst snd].
    destruct (Utf8.decode d2 b) as [d3 o3]. cbn [fst snd].
    now rewrite app_assoc.
Qed.

Lemma Utf8_decodeAll_concat (chunks : list bytes) :
  forall d,
  concat (decodeAll Utf8.decode d chunks) = snd (Utf8.decode d (concat chunks))
  /\ decoderAfter Utf8.decode d chunks = fst (Utf8.decode d (concat chunks)).
Proof.
  induction chunks as [|value rest IH]; intros d;
    cbn [decodeAll decoderAfter concat].
  - split; reflexivity.
  - rewrite Utf8_decode_app. cbn [fst snd].
    destruct (Utf8.decode d value) as [d1 o1]. cbn [fst snd concat].
    destruct (IH d1) as [-> ->]. split; reflexivity.
Qed.

(** Bytes below 128 decode to themselves when no character is under
    way. *)
Lemma Utf8_decode_ascii (a : bytes) :
  forall d,
  Utf8.bytesNeeded d = 0%N ->
  Forall (fun b => (b < 128)%N) a ->
  snd (Utf8.decode d a) = a
  /\ Utf8.bytesNeeded (fst (Utf8.decode d a)) = 0%N.
Proof.
  induction a as [|x a IH]; intros d Hidle Hall; cbn [Utf8.decode].
  - split; [reflexivity | exact Hidle].
  - inversion Hall as [|? ? Hx Hrest]; subst.
    unfold Utf8.handler. rewrite Hidle. cbn [N.eqb].
    unfold Utf8.lead, Utf8.between.
    assert (H0 : (0 <=? x)%N = true) by (apply N.leb_le; lia).
    assert (Hle : (x <=? 127)%N = true) by (apply N.leb_le; lia).
    rewrite H0, Hle. cbn [andb].
    unfold Utf8.emit, Utf8.utf16.
    assert (Hbom : (x =? 65279)%N = false) by (apply N.eqb_neq; lia).
    assert (Hlt : (x <? 65536)%N = true) by (apply N.ltb_lt; lia).
    rewrite Hbom, Hlt, andb_false_r.
    destruct (IH (Utf8.mkDecoder 0 0 0 128 191 true) eq_refl Hrest)
      as [Hs Hn].
    destruct (Utf8.decode (Utf8.mkDecoder 0 0 0 128 191 true) a) as [d2 o2].
    cbn [fst snd] in *. subst o2. split; [reflexivity | exact Hn].
Qed.

(** ** The value [null] *)

Ltac split_match H :=
  repeat match type of H with
         | match ?x with _ => _ end = Some _ => destruct x eqn:?; try discriminate
         | (if ?b then _ else _) = Some _ => destruct b eqn:?; try discriminate
         | (let '(_, _) := ?x in _) = Some _ => destruct x eqn:?
         end.

Lemma pmembers_object (fuel : nat) :
  forall s acc v r,
  Json.pmembers fuel s acc = Some (v, r) -> exists ms, v = Json.JObject ms.
Proof.
  induction fuel as [|f IH]; intros s acc v r H; [discriminate|].
  cbn [Json.pmembers] in H. split_match H.
  - eapply IH; eassumption.
  - injection H as <- <-. eexists. reflexivity.
Qed.

Lemma pelements_array (fuel : nat) :
  forall s acc v r,
  Json.pelements fuel s acc = Some (v, r) -> exists xs, v = Json.JArray xs.
Proof.
  induction fuel as [|f IH]; intros s acc v r H; [discriminate|].
  cbn [Json.pelements] in H. split_match H.
  - eapply IH; eassumption.
  - injection H as <- <-. eexists. reflexivity.
Qed.

Lemma pvalue_null (fuel : nat) (s r : jsstring) :
  Json.pvalue fuel s = Some (Json.JNull, r) ->
  Json.skipWs s = lit "null" ++ r.
Proof.
  destruct fuel as [|f]; [discriminate|]. cbn [Json.pvalue]. intros H.
  destruct (Json.skipWs s) as [|c r0]; [discriminate|].
  split_match H;
    try match goal with
        | E : Json.pmembers _ _ _ = Some _ |- _ =>
            apply pmembers_object in E as [? ?]; congruence
        | E : Json.pelements _ _ _ = Some _ |- _ =>
            apply pelements_array in E as [? ?]; congruence
        end.
  match goal with
  | E : startsWith (lit "null") _ = true |- _ =>
      apply startsWith_spec in E as [r' Hr']
  end.
  cbn in Hr'. injection Hr' as -> ->. injection H as <-. reflexivity.
Qed.

Lemma skipWs_split (s : jsstring) :
  exists ws, s = ws ++ Json.skipWs s /\ Forall (fun c => Json.isWs c = true) ws.
Proof.
  induction s as [|c s (ws & Hs & Hall)]; [now exists []|].
  cbn [Json.skipWs]. destruct (Json.isWs c) eqn:E.
  - exists (c :: ws). split; [cbn; congruence | now constructor].
  - now exists [].
Qed.

(** [JSON.parse] gives [null] only for the word [null] in white space:
    never for a text that holds a brace. *)
Lemma parse_null_no_brace (text : jsstring) :
  Json.parse text = Some Json.JNull -> ~ In LBRACE text.
Proof.
  unfold Json.parse.
  destruct (Json.pvalue _ text) as [[v r]|] eqn:E; [|discriminate].
  destruct (truthy (Json.skipWs r)) eqn:Er; [discriminate|].
  intros [= ->]. apply pvalue_null in E.
  destruct (skipWs_split text) as (ws & Htext & Hws).
  destruct (skipWs_split r) as (ws' & Hr & Hws').
  destruct (Json.skipWs r); [|discriminate]. rewrite app_nil_r in Hr. subst ws'.
  rewrite Htext, E. intros Hin.
  assert (Hno : forall l, Forall (fun c => Json.isWs c = true) l -> ~ In LBRACE l).
  { intros l Hl Hb. rewrite Forall_forall in Hl. now specialize (Hl _ Hb). }
  apply in_app_or in Hin as [Hin | Hin]; [now apply (Hno ws)|].
  apply in_app_or in Hin as [Hin | Hin]; [|now apply (Hno r)].
  cbn in Hin. repeat destruct Hin as [Hin | Hin]; try discriminate. exact Hin.
Qed.

(** [answerStream] returns [null] only when no metadata was parsed: the
    value of a parsed metadata text is never [null]. *)
Lemma run_never_returns_parsed_null (chunks : list bytes) :
  snd (run chunks) <> Some Json.JNull.
Proof.
  intros H. apply processStream_returns_parsed_brace in H as (t & Hin & Hp).
  exact (parse_null_no_brace _ Hp Hin).
Qed.

(** ** Runs on concrete streams *)

(** The stream of the specification's example, delivered in one chunk:
    one text event and the metadata. *)
Example run_hello_one_chunk :
  run [helloStream]
  = ([lit "Hello world"], Some (Json.JObject [(lit "brandUsed", Json.JNull)])).
Proof. vm_compute. reflexivity. Qed.

(** C1.  The observed result depends on where the chunks end.  The stream
    ["Hello world\n\n{...}"] gives the text "Hello world" and the metadata
    when it comes in one chunk.  Cut after the brace, the text before the
    delimiter is appended a second time at the next read: the final text is
    "Hello worldHello world".  Cut between the two line feeds, the
    delimiter is never seen whole: the JSON text ends up in the answer text
    and the call returns [null]. *)
Theorem C1_chunk_boundaries_change_the_result :
  let meta := Some (Json.JObject [(lit "brandUsed", Json.JNull)]) in
  let afterBrace := [lit "Hello world" ++ nl ++ nl ++ lit "{"; skipn 1 brandUsedNull] in
  let insideDelimiter := [lit "Hello world" ++ nl; nl ++ brandUsedNull] in
  concat afterBrace = helloStream
  /\ concat insideDelimiter = helloStream
  /\ run [helloStream] = ([lit "Hello world"], meta)
  /\ run afterBrace
     = ([lit "Hello world"; lit "Hello worldHello world"], meta)
  /\ run insideDelimiter
     = ([lit "Hello world" ++ nl; lit "Hello world" ++ nl ++ nl ++ brandUsedNull],
        None).
Proof. vm_compute. repeat split. Qed.

(** C5.  A stream that ends in a segment that is not JSON after a blank
    line, when that segment starts with a brace: the loop has already
    appended the text before the delimiter, and the code after the loop
    appends the first piece of the split once more.  The text delivered in
    total is "AnswerAnswer\n\n{Not Json", not the text of the stream. *)
Theorem C5_trailing_text_after_brace_is_emitted_with_duplicate :
  let stream := lit "Answer" ++ nl ++ nl ++ lit "{Not Json" in
  Json.parse (lit "{Not Json") = None
  /\ run [stream]
     = ([lit "Answer"; lit "AnswerAnswer";
         lit "AnswerAnswer" ++ nl ++ nl ++ lit "{Not Json"], None)
  /\ last (fst (run [stream])) [] <> stream.
Proof. vm_compute. repeat split. discriminate. Qed.

(** The stream of the specification's example, cut anywhere inside
    "Hello world" and nowhere else: the result is that of the single
    chunk. *)
Lemma run_hello_cut_inside_text
    (before : list bytes) (value : bytes) (rest : list bytes) :
  concat before ++ value = helloStream ->
  length (concat before) <= 11 ->
  snd (run (before ++ value :: rest))
  = Some (Json.JObject [(lit "brandUsed", Json.JNull)])
  /\ last (fst (run (before ++ value :: rest))) [] = lit "Hello world".
Proof.
  intros Hcat Hk. unfold run.
  assert (Hascii : Forall (fun b => (b < 128)%N) (concat before ++ value)).
  { rewrite Hcat. apply Forall_forall. intros b Hb.
    assert (Hall : forallb (fun b => (b <? 128)%N) helloStream = true)
      by (vm_compute; reflexivity).
    rewrite forallb_forall in Hall. now apply N.ltb_lt, Hall. }
  apply Forall_app in Hascii as [Hbefore Hvalue].
  destruct (Utf8_decodeAll_concat before Utf8.fresh) as [Htexts Hafter].
  destruct (Utf8_decode_ascii Utf8.fresh eq_refl Hbefore) as [Hsame Hidle].
  rewrite Hsame in Htexts. rewrite <- Hafter in Hidle.
  destruct (Utf8_decode_ascii _ Hidle Hvalue) as [Hsame' _].
  set (k := length (concat before)) in *.
  assert (Hfirst : concat before = firstn k (lit "Hello world")).
  { replace (lit "Hello world")
      with (firstn 11 (concat before ++ value)) by (now rewrite Hcat).
    rewrite firstn_firstn, Nat.min_l by exact Hk.
    unfold k. rewrite firstn_app_le, firstn_all by lia. reflexivity. }
  assert (Hlast : value = skipn k (lit "Hello world") ++ blankLine ++ brandUsedNull).
  { change (skipn k (lit "Hello world") ++ blankLine ++ brandUsedNull)
      with (skipn k (lit "Hello world") ++ (blankLine ++ brandUsedNull)).
    rewrite <- skipn_app_le by (simpl; exact Hk).
    change (lit "Hello world" ++ blankLine ++ brandUsedNull) with helloStream.
    rewrite <- Hcat. unfold k.
    now rewrite skipn_app, skipn_all, Nat.sub_diag. }
  apply processStream_metadata_in_one_chunk
    with (d' := fst (Utf8.decode (decoderAfter Utf8.decode Utf8.fresh before) value))
         (Tlast := skipn k (lit "Hello world")) (Jtext := brandUsedNull).
  - vm_compute. reflexivity.
  - vm_compute. reflexivity.
  - rewrite Htexts, Hfirst at 1. now rewrite firstn_skipn.
  - rewrite <- Hlast.
    rewrite (surjective_pairing
               (Utf8.decode (decoderAfter Utf8.decode Utf8.fresh before) value))
      at 1.
    now rewrite Hsame'.
Qed.

(** The example of the specification for text that is not JSON, cut
    anywhere: it has no brace after the blank line, every read flushes its
    buffer as text, and the code after the loop has nothing left to do. *)
Lemma run_answer_not_json_any_chunking (chunks : list bytes) :
  concat chunks = lit "Answer" ++ nl ++ nl ++ lit "Not Json" ->
  snd (run chunks) = None
  /\ last (fst (run chunks)) [] = lit "Answer" ++ nl ++ nl ++ lit "Not Json".
Proof.
  intros H. unfold run.
  assert (Hd : concat (decodeAll Utf8.decode Utf8.fresh chunks)
               = lit "Answer" ++ nl ++ nl ++ lit "Not Json").
  { rewrite (proj1 (Utf8_decodeAll_concat chunks Utf8.fresh)), H.
    vm_compute. reflexivity. }
  rewrite <- Hd at 1.
  apply processStream_no_delimiter. rewrite Hd. vm_compute. reflexivity.
Qed.

(** The example of the specification itself has no brace after the blank
    line; the loop flushes it as text and the code after the loop has
    nothing left to do. *)
Example run_answer_not_json :
  let stream := lit "Answer" ++ nl ++ nl ++ lit "Not Json" in
  run [stream] = ([stream], None)
  /\ run [lit "Answer" ++ nl; nl ++ lit "Not Json"]
     = ([lit "Answer" ++ nl; stream], None).
Proof. vm_compute. repeat split. Qed.

(** With the chunk ending just before the delimiter nothing is appended
    twice. *)
Example run_answer_brace_cut_before_delimiter :
  run [lit "Answer"; nl ++ nl ++ lit "{Not Json"]
  = ([lit "Answer"; lit "Answer" ++ nl ++ nl ++ lit "{Not Json"], None).
Proof. vm_compute. reflexivity. Qed.


(** The theorem of C9 on the read of ["\n\n{}"] into an empty buffer. *)
Lemma C9_witness :
  indexOf (buffer (initial Json.json) ++ delimiter ++ lit "}") delimiter = Some 0
  /\ loopBody Json.parse (initial Json.json) (delimiter ++ lit "}")
     = ([], mkState [] [] (Some (Json.JObject [])), Break).
Proof.
  split; [reflexivity|].
  exact (proj1 (proj2 (C9_delimiter_at_start_no_text_event Json.parse
                         (initial Json.json) (delimiter ++ lit "}") eq_refl))).
Defined.

(** The theorem of C10 on a chunk that holds the first byte of a
    three-byte character only: it decodes to nothing. *)
Lemma C10_witness :
  Utf8.decode Utf8.fresh [228%N]
  = (fst (Utf8.decode Utf8.fresh [228%N]), [])
  /\ fst (readLoop Utf8.decode Json.parse Utf8.fresh [[228%N]]
            (mkState [] (lit "Hi") None))
     = [lit "Hi"].
Proof.
  split; [reflexivity|].
  exact (f_equal fst
           (proj1 (C10_empty_chunk_repeats_accumulated_text Utf8.decode
                     Json.parse Utf8.fresh
                     (d':=fst (Utf8.decode Utf8.fresh [228%N]))
                     [228%N] [] (lit "Hi") None eq_refl))).
Defined.

(** An empty chunk after some text: the same text is delivered twice. *)
Example run_empty_chunk_duplicates_event :
  run [lit "Hi"; []] = ([lit "Hi"; lit "Hi"], None)
  /\ runGenerator [lit "Hi"; []] = [YText (lit "Hi"); YText (lit "Hi")].
Proof. vm_compute. split; reflexivity. Qed.

(** The theorem of C6 on the message made of a space, a tab and a line
    feed. *)
Lemma C6_witness :
  forallb isWhiteSpace [32; 9; 10]%N = true
  /\ answerStream Utf8.decode Utf8.fresh Json.parse offline noDetail
       exampleClient (mkRequest [32; 9; 10]%N None tt)
     = ([], inl (Error (lit "Message is required"))).
Proof.
  split; [reflexivity|].
  exact (proj1 (proj2 (C6_blank_message_fails_before_network Utf8.decode
                         Utf8.fresh Json.parse offline noDetail exampleClient
                         (mkRequest [32; 9; 10]%N None tt) eq_refl))).
Defined.

(** The theorem of C7 on a 400 response with a JSON body. *)
Lemma C7_witness :
  status (mkResponse 400 (lit "Bad Request") (Some (lit "application/json"))
            (Some (mkErrorResponse (lit "invalid_request") None)) None)
  = 400%N
  /\ classOf
       (handleApiError
          (mkResponse 400 (lit "Bad Request") (Some (lit "application/json"))
             (Some (mkErrorResponse (lit "invalid_request") None)) None))
     = Some ValidationError
  /\ responseOf
       (handleApiError
          (mkResponse 400 (lit "Bad Request") (Some (lit "application/json"))
             (Some (mkErrorResponse (lit "invalid_request") None)) None))
     = Some (mkErrorResponse (lit "invalid_request") None).
Proof.
  split; [reflexivity|].
  pose proof (proj1 (C7_errors_classified_by_status_and_transport offline noDetail)
                (mkResponse 400 (lit "Bad Request")
                   (Some (lit "application/json"))
                   (Some (mkErrorResponse (lit "invalid_request") None)) None))
    as (H400 & _ & _ & _ & _ & Hbody & _).
  split; [exact (H400 eq_refl) | exact (Hbody _ _ eq_refl eq_refl eq_refl)].
Defined.

(** * Further properties of the splitter *)

Section SplitterMore.

Variable DecoderState : Type.
Variable decode : DecoderState -> bytes -> DecoderState * jsstring.
Variable J : Type.
Variable JSON_parse : jsstring -> option J.

Lemma readLoop_running (chunks : list bytes) :
  forall d acc (meta : option J),
  indexOf (concat (decodeAll decode d chunks)) delimiter = None ->
  readLoop decode JSON_parse d chunks (mkState [] acc meta)
  = (running acc (decodeAll decode d chunks),
     mkState [] (acc ++ concat (decodeAll decode d chunks)) meta).
Proof.
  induction chunks as [|value rest IH]; intros d acc meta;
    cbn [readLoop decodeAll].
  - intros _. cbn [concat running]. now rewrite app_nil_r.
  - destruct (decode d value) as [d' text]. cbn [concat running]. intros H.
    pose proof (indexOf_None_prefix _ _ _ H) as Htext.
    pose proof (indexOf_None_suffix _ _ _ H) as Hrest.
    unfold loopBody. cbn [buffer accumulatedText metadata app].
    rewrite Htext, (IH d' (acc ++ text) meta Hrest).
    now rewrite <- app_assoc.
Qed.

(** X1.  A stream in which ["\n\n{"] never occurs, however it is cut into
    chunks: every chunk makes one call of [onChunk], with all the text
    decoded so far; [answerStream] returns [null]; the generator yields the
    same strings and no metadata. *)
Theorem X1_stream_without_delimiter_is_all_text
    (d0 : DecoderState) (chunks : list bytes) :
  indexOf (concat (decodeAll decode d0 chunks)) delimiter = None ->
  processStream decode JSON_parse d0 chunks
  = (running [] (decodeAll decode d0 chunks), None)
  /\ generateStream decode JSON_parse d0 chunks
     = map YText (running [] (decodeAll decode d0 chunks)).
Proof.
  intros H.
  assert (Hp : processStream decode JSON_parse d0 chunks
               = (running [] (decodeAll decode d0 chunks), None)).
  { unfold processStream, initial. rewrite (readLoop_running _ _ _ _ H).
    cbn [drain truthy buffer metadata]. now rewrite app_nil_r. }
  split; [exact Hp|].
  rewrite generateStream_processStream, Hp. cbn [fst snd terminal].
  apply app_nil_r.
Qed.

(** X2.  The stream is the answer text [T], a blank line and a JSON text
    that parses to [m], with no earlier ["\n\n{"].  When the chunks end
    inside [T] only, so that the end of [T], the blank line and the whole
    JSON text come in one chunk, [answerStream] returns [m], the last value
    passed to [onChunk] is [T], and the chunks after that one do not
    matter. *)
Theorem X2_metadata_in_one_chunk_gives_text_and_metadata
    (d0 d' : DecoderState) (before : list bytes) (value : bytes)
    (rest : list bytes) (T Tlast Jtext : jsstring) (m : J) :
  indexOf (T ++ blankLine ++ Jtext) delimiter = Some (length T) ->
  JSON_parse Jtext = Some m ->
  T = concat (decodeAll decode d0 before) ++ Tlast ->
  decode (decoderAfter decode d0 before) value
  = (d', Tlast ++ blankLine ++ Jtext) ->
  snd (processStream decode JSON_parse d0 (before ++ value :: rest)) = Some m
  /\ last (fst (processStream decode JSON_parse d0 (before ++ value :: rest))) []
     = T
  /\ metasOf (generateStream decode JSON_parse d0 (before ++ value :: rest))
     = [m].
Proof.
  intros Hi Hp HT Hd.
  destruct (processStream_metadata_in_one_chunk decode JSON_parse d0 before
              value rest Tlast Jtext Hi Hp HT Hd) as [Hm Hl].
  repeat match goal with |- _ /\ _ => split end; try assumption.
  now rewrite generateStream_processStream, metasOf_shape, Hm.
Qed.

Lemma readLoop_stops (pre : list bytes) :
  forall d (st : state J) out st' m tail,
  readLoop decode JSON_parse d pre st = (out, st') ->
  metadata st = None -> metadata st' = Some m ->
  readLoop decode JSON_parse d (pre ++ tail) st = (out, st').
Proof.
  induction pre as [|value rest IH]; intros d st out st' m tail;
    cbn [readLoop app].
  - intros [= <- <-] Hn Hs. congruence.
  - destruct (decode d value) as [d' text].
    destruct (loopBody JSON_parse st text) as [[o1 s1] c] eqn:E.
    pose proof (loopBody_control _ _ _ E) as Hc. destruct c; [|trivial].
    destruct (readLoop decode JSON_parse d' rest s1) as [o2 s2] eqn:E2.
    intros [= <- <-] Hn Hs.
    erewrite IH; [reflexivity | exact E2 | congruence | exact Hs].
Qed.

(** X3.  Once the loop has parsed the metadata it stops reading: whatever
    chunks follow, [answerStream] makes the same calls and returns the same
    metadata, and the generator yields the same values. *)
Theorem X3_chunks_after_the_metadata_are_not_read
    (d0 : DecoderState) (pre tail : list bytes) (m : J) :
  metadata (snd (readLoop decode JSON_parse d0 pre (initial J))) = Some m ->
  processStream decode JSON_parse d0 (pre ++ tail)
  = processStream decode JSON_parse d0 pre
  /\ generateStream decode JSON_parse d0 (pre ++ tail)
     = generateStream decode JSON_parse d0 pre.
Proof.
  intros Hm.
  assert (Hp : processStream decode JSON_parse d0 (pre ++ tail)
               = processStream decode JSON_parse d0 pre).
  { unfold processStream.
    destruct (readLoop decode JSON_parse d0 pre (initial J)) as [o1 s1] eqn:E.
    erewrite (readLoop_stops pre);
      [reflexivity | exact E | reflexivity | exact Hm]. }
  split; [exact Hp|]. now rewrite !generateStream_processStream, Hp.
Qed.

(** X4.  The code after the loop never takes its single-piece branch: the
    loop leaves the buffer either empty or holding the delimiter, and then
    the split on the blank line gives more than one piece and the rest,
    joined again, is not empty (client.ts 196, 205, 214-217). *)
Theorem X4_fallback_always_finds_a_blank_line
    (d0 : DecoderState) (chunks : list bytes) :
  let left := buffer (snd (readLoop decode JSON_parse d0 chunks (initial J))) in
  left = []
  \/ (1 < length (split left blankLine)
      /\ truthy (join blankLine (skipn 1 (split left blankLine))) = true).
Proof.
  cbv zeta.
  destruct (readLoop decode JSON_parse d0 chunks (initial J)) as [o1 s1] eqn:E1.
  cbn [snd].
  destruct (readLoop_accounted decode JSON_parse chunks d0
              (initial_accounted J) eq_refl E1)
    as [[_ Hacc] | (n & A & m & _ & Hbuf & _)]; [|now left].
  destruct Hacc as (flushed & X & _ & [[Hb _] | (i & Hi & _)]); [now left|].
  right.
  destruct (indexOf_blank_of_delimiter _ Hi) as (p & Hp & Hle).
  pose proof (indexOf_bound _ _ Hi) as Hbound.
  change (length delimiter) with 3 in Hbound.
  assert (Hsep : blankLine <> []) by discriminate.
  destruct (split_at_first _ Hsep Hp) as (rest & Hsplit & Hrest & Hjoin).
  change (length blankLine) with 2 in Hjoin.
  rewrite Hsplit. cbn [skipn]. rewrite Hjoin. split.
  - destruct rest; [congruence | simpl; lia].
  - pose proof (length_skipn (p + 2) (buffer s1)) as Hl.
    destruct (skipn (p + 2) (buffer s1)); [simpl in Hl; lia | reflexivity].
Qed.

Lemma loopBody_at_most_one (st : state J) (text : jsstring) out st' c :
  loopBody JSON_parse st text = (out, st', c) -> length out <= 1.
Proof.
  unfold loopBody.
  destruct (indexOf (buffer st ++ text) delimiter) as [i|].
  - rewrite appendIfAny_eq.
    destruct (JSON_parse _); intros [= <- <- <-];
      destruct (truthy _); simpl; lia.
  - intros [= <- <- <-]. simpl. lia.
Qed.

Lemma readLoop_at_most_one_each (chunks : list bytes) :
  forall d (st : state J) out st',
  readLoop decode JSON_parse d chunks st = (out, st') ->
  length out <= length chunks.
Proof.
  induction chunks as [|value rest IH]; intros d st out st'; cbn [readLoop].
  - intros [= <- <-]. simpl. lia.
  - destruct (decode d value) as [d' text].
    destruct (loopBody JSON_parse st text) as [[o1 s1] c] eqn:E.
    apply loopBody_at_most_one in E. destruct c.
    + destruct (readLoop decode JSON_parse d' rest s1) as [o2 s2] eqn:E2.
      intros [= <- <-]. apply IH in E2. rewrite length_app. simpl. lia.
    + intros [= <- <-]. simpl. lia.
Qed.

Lemma drain_at_most_two (st : state J) out st' :
  drain JSON_parse st = (out, st') -> length out <= 2.
Proof.
  unfold drain.
  destruct (truthy (buffer st)); [|intros [= <- <-]; simpl; lia].
  destruct (1 <? length (split (buffer st) blankLine));
    [|intros [= <- <-]; simpl; lia].
  rewrite appendIfAny_eq.
  destruct (truthy (join _ _)); [destruct (JSON_parse _)|];
    intros [= <- <-]; destruct (truthy (nth 0 _ _));
    rewrite ?length_app; simpl; lia.
Qed.

Lemma drain_count (st : state J) out st' :
  drain JSON_parse st = (out, st') -> metadata st = None ->
  length out + length (terminal (metadata st')) <= 2.
Proof.
  unfold drain. intros H Hm. revert H.
  destruct (truthy (buffer st));
    [|intros [= <- <-]; rewrite Hm; simpl; lia].
  destruct (1 <? length (split (buffer st) blankLine));
    [|intros [= <- <-]; rewrite Hm; simpl; lia].
  rewrite appendIfAny_eq.
  destruct (truthy (join _ _)); [destruct (JSON_parse _)|];
    intros [= <- <-]; destruct (truthy (nth 0 _ _));
    cbn [metadata]; rewrite ?Hm, ?length_app; simpl; lia.
Qed.

(** X5.  [answerStream] calls [onChunk] at most once for each chunk it
    reads and at most twice after the last read; the generator, metadata
    included, yields no more values than that. *)
Theorem X5_events_bounded_by_chunks
    (d0 : DecoderState) (chunks : list bytes) :
  length (fst (processStream decode JSON_parse d0 chunks)) <= length chunks + 2
  /\ length (generateStream decode JSON_parse d0 chunks) <= length chunks + 2.
Proof.
  rewrite generateStream_processStream, length_app, length_map.
  unfold processStream.
  destruct (readLoop decode JSON_parse d0 chunks (initial J)) as [o1 s1] eqn:E1.
  destruct (drain JSON_parse s1) as [o2 s2] eqn:E2. cbn [fst snd].
  pose proof (readLoop_at_most_one_each _ _ _ E1) as H1.
  pose proof (drain_at_most_two _ E2) as H2.
  rewrite length_app.
  destruct (genLoop_readLoop decode JSON_parse chunks d0 (initial J) eq_refl E1)
    as [_ [Hn | Hb]].
  - pose proof (drain_count _ E2 Hn). lia.
  - rewrite (drain_empty JSON_parse _ Hb) in E2. injection E2 as <- <-.
    destruct (metadata s1); simpl; lia.
Qed.

(** X6.  The first chunk brings the answer text [T], not empty, the blank
    line and a start [J1] of the JSON text that does not parse alone; the
    second chunk brings the rest [J2].  The text before the delimiter is
    then appended at both reads: [onChunk] is called with [T] and then with
    [T ++ T], and the metadata is returned. *)
Theorem X6_text_appended_again_when_json_completes_later
    (d0 d1 d2 : DecoderState) (v1 v2 : bytes) (rest : list bytes)
    (T J1 J2 : jsstring) (m : J) :
  T <> [] ->
  indexOf (T ++ blankLine ++ J1) delimiter = Some (length T) ->
  JSON_parse J1 = None ->
  JSON_parse (J1 ++ J2) = Some m ->
  decode d0 v1 = (d1, T ++ blankLine ++ J1) ->
  decode d1 v2 = (d2, J2) ->
  processStream decode JSON_parse d0 (v1 :: v2 :: rest) = ([T; T ++ T], Some m)
  /\ generateStream decode JSON_parse d0 (v1 :: v2 :: rest)
     = [YText T; YText (T ++ T); YMeta m].
Proof.
  intros HT Hi Hp1 Hp2 Hd1 Hd2.
  pose proof (processStream_metadata_in_two_chunks decode JSON_parse d0 v1 v2
                rest J1 HT Hi Hp1 Hp2 Hd1 Hd2) as Hp.
  split; [exact Hp|]. now rewrite generateStream_processStream, Hp.
Qed.

(** X7.  With a buffer that holds a blank line followed by something, the
    code after the loop cuts at the first blank line only: the text before
    it is appended (and delivered unless empty); all the rest, later blank
    lines included, is parsed as one text; when that fails it is appended
    after a blank line, so that the buffer as a whole has been appended. *)
Theorem X7_fallback_cuts_at_first_blank_line (st : state J) (p : nat) :
  indexOf (buffer st) blankLine = Some p ->
  p + 2 < length (buffer st) ->
  let textPart := firstn p (buffer st) in
  let metadataPart := skipn (p + 2) (buffer st) in
  match JSON_parse metadataPart with
  | Some m =>
      drain JSON_parse st
      = (if truthy textPart then [accumulatedText st ++ textPart] else [],
         mkState (buffer st) (accumulatedText st ++ textPart) (Some m))
  | None =>
      accumulatedText (snd (drain JSON_parse st))
      = accumulatedText st ++ buffer st
      /\ last (fst (drain JSON_parse st)) [] = accumulatedText st ++ buffer st
      /\ metadata (snd (drain JSON_parse st)) = metadata st
  end.
Proof.
  intros Hp Hlen. cbv zeta.
  rewrite (drain_at_blank_line JSON_parse _ Hp Hlen). cbv zeta.
  pose proof (indexOf_cut _ _ Hp) as Hcut.
  change (length blankLine) with 2 in Hcut.
  destruct (JSON_parse _); [reflexivity|]. cbn [fst snd accumulatedText metadata].
  assert (Hall : (accumulatedText st ++ firstn p (buffer st))
                 ++ blankLine ++ skipn (p + 2) (buffer st)
                 = accumulatedText st ++ buffer st).
  { rewrite <- app_assoc. f_equal. symmetry. exact Hcut. }
  rewrite Hall. repeat match goal with |- _ /\ _ => split end; try reflexivity.
  rewrite last_app_seed. reflexivity.
Qed.

End SplitterMore.

(** * Further properties of the requests and of the errors *)

Lemma trimStart_nil (s : jsstring) :
  trimStart s = [] -> forallb isWhiteSpace s = true.
Proof.
  induction s as [|c s IH]; [reflexivity|]. cbn [trimStart forallb].
  destruct (isWhiteSpace c); [exact IH | discriminate].
Qed.

Lemma whitespace_after_trimStart (s : jsstring) :
  forallb isWhiteSpace (trimStart s) = true -> forallb isWhiteSpace s = true.
Proof.
  induction s as [|c s IH]; [reflexivity|]. cbn [trimStart].
  destruct (isWhiteSpace c) eqn:E; [|trivial].
  intros H. cbn [forallb]. now rewrite E, IH.
Qed.

(** [trim] leaves nothing exactly of the strings made of white space. *)
Lemma trim_nil_iff (s : jsstring) :
  trim s = [] <-> forallb isWhiteSpace s = true.
Proof.
  split; [|apply trim_whitespace].
  unfold trim, trimEnd. intros H.
  apply (f_equal (@rev N)) in H. rewrite rev_involutive in H. cbn [rev] in H.
  apply trimStart_nil in H. apply whitespace_after_trimStart.
  rewrite forallb_forall in *. intros x Hx. apply H. now apply in_rev in Hx.
Qed.

Section ClientMore.

Variable DecoderState : Type.
Variable decode : DecoderState -> bytes -> DecoderState * jsstring.
Variable newDecoder : DecoderState.
Variable J : Type.
Variable JSON_parse : jsstring -> option J.
Variable Options : Type.
Variable fetch : jsstring -> RequestInit Options -> FetchOutcome J.
Variable asError : J -> ErrorResponse.

(** X8.  The check at the head of the three methods refuses exactly the
    messages made of white space (the empty message among them): a message
    with one code unit that is not white space passes, wherever that code
    unit stands. *)
Theorem X8_message_check_refuses_exactly_blank_messages
    (request : AnswerRequest Options) :
  messageMissing request = true
  <-> forallb isWhiteSpace (message request) = true.
Proof.
  split; [|apply messageMissing_blank].
  unfold messageMissing. rewrite orb_true_iff, Nat.eqb_eq, length_zero_iff_nil.
  intros [H | H]; [|now apply trim_nil_iff].
  destruct (message request); [reflexivity | discriminate].
Qed.

(** X10.  [answer] returns a value exactly when the message passes the
    check and the server answers with a status from 200 to 299 and a body
    that [response.json()] can read; the value is that body.  A valid
    message costs exactly one [fetch], whatever comes of it. *)
Theorem X10_answer_returns_exactly_the_body_of_a_success
    (c : ThredClient) (request : AnswerRequest Options) (j : J) :
  let url := baseUrl ++ lit "/answer" in
  let init := post c (withModel c request) in
  (snd (answer fetch asError c request) = inr j
   <-> messageMissing request = false
       /\ exists response,
            fetch url init = Resolves response
            /\ ok response = true /\ json response = Some j)
  /\ (messageMissing request = false ->
      fst (answer fetch asError c request) = [EFetch url init]).
Proof.
  cbv zeta. unfold answer, fetchWithTimeout, checkOk, bind, tell, ret, throw.
  destruct (messageMissing request) eqn:Hmsg.
  - split; [|discriminate]. cbn [snd]. split; [discriminate|].
    intros [H _]. discriminate.
  - destruct (fetch (baseUrl ++ lit "/answer") (post c (withModel c request)))
      as [response | reason] eqn:Hf.
    + cbn beta iota. destruct (ok response) eqn:Hok; cbn [negb]; cbn beta iota.
      * destruct (json response) as [j'|] eqn:Hj; cbn [fst snd app].
        -- split; [|reflexivity]. split.
           ++ intros [= ->]. split; [reflexivity|]. exists response. auto.
           ++ intros [_ (r & [= <-] & _ & Hj')]. congruence.
        -- split; [|reflexivity]. split; [discriminate|].
           intros [_ (r & [= <-] & _ & Hj')]. congruence.
      * cbn [fst snd app]. split; [|reflexivity]. split; [discriminate|].
        intros [_ (r & [= <-] & Hok' & _)]. congruence.
    + destruct reason as [name msg|];
        [destruct (eqs name (lit "AbortError"))|];
        cbn [fst snd app]; (split; [|reflexivity]);
        (split; [discriminate | intros [_ (r & Hr & _)]; discriminate]).
Qed.

(** X12.  The constructor refuses exactly the configurations with an empty
    API key.  A client it builds has the key of the configuration, a
    timeout that is not zero and the model of the configuration, [gpt-4]
    when there is none.  The timeout is the configured count when that is
    not zero; a missing timeout, zero and [NaN] all become 30000. *)
Theorem X12_constructor_requires_key_and_fills_defaults
    (config : ThredConfig) :
  (cfg_apiKey config = [] <->
   new_ThredClient config = inl (Error (lit "API key is required")))
  /\ forall c, new_ThredClient config = inr c ->
       apiKey c = cfg_apiKey config /\ apiKey c <> []
       /\ timeout c <> 0%N
       /\ (forall t, cfg_timeout config = Some (Millis t) -> t <> 0%N ->
           timeout c = t)
       /\ (cfg_timeout config = Some (Millis 0) \/ cfg_timeout config = Some NaN
           \/ cfg_timeout config = None ->
           timeout c = 30000%N)
       /\ defaultModel c
          = match cfg_defaultModel config with Some m => m | None => gpt_4 end.
Proof.
  unfold new_ThredClient.
  destruct (cfg_apiKey config) as [|k ks] eqn:Hk; cbn [truthy negb].
  - split; [split; intros _; reflexivity | discriminate].
  - split; [split; discriminate|].
    intros c [= <-]. cbn [apiKey timeout defaultModel].
    repeat match goal with |- _ /\ _ => split end;
      try reflexivity; try discriminate.
    + destruct (cfg_timeout config) as [[t|]|]; [|discriminate..].
      destruct (N.eqb_spec t 0); [discriminate | assumption].
    + intros t -> Ht. apply N.eqb_neq in Ht. now rewrite Ht.
    + intros [-> | [-> | ->]]; reflexivity.
Qed.

Lemma orElse_not_empty (a : option jsstring) (b : jsstring) :
  b <> [] -> orElse a b <> [].
Proof.
  intros Hb. unfold orElse. destruct a as [s|]; [|exact Hb].
  destruct s; [exact Hb | discriminate].
Qed.

(** X14.  The message of the error [handleApiError] throws is the
    [message] of the parsed body when it is not empty, else its [error]
    when that is not empty, else the status text; it is not empty as soon
    as the status text is not. *)
Theorem X14_error_message_falls_back_and_is_not_empty
    (response : Response ErrorResponse) :
  ((exists e, responseOf (handleApiError response) = Some e
              /\ (messageOf (handleApiError response)
                  = match er_message e with
                    | Some m => if truthy m then m
                                else if truthy (er_error e) then er_error e
                                     else statusText response
                    | None => if truthy (er_error e) then er_error e
                              else statusText response
                    end))
   \/ (responseOf (handleApiError response) = None
       /\ messageOf (handleApiError response) = statusText response))
  /\ (statusText response <> [] -> messageOf (handleApiError response) <> []).
Proof.
  destruct (handleApiError_shape response)
    as (cls & message & errorData & -> & _ & _ & Hmsg).
  cbn [responseOf messageOf]. rewrite Hmsg. split.
  - destruct errorData as [e|]; [left | right; split; reflexivity].
    exists e. split; [reflexivity|]. unfold orElse. cbn [option_map].
    destruct (er_message e) as [m|]; [destruct (truthy m)|]; reflexivity.
  - intros Hs. now apply orElse_not_empty, orElse_not_empty.
Qed.

(** X15.  [handleApiError] reads the body only when the content type
    header holds [application/json]: without the header, or with another
    type, a body that would parse is ignored, the error carries no body and
    its message is the status text. *)
Theorem X15_body_ignored_without_json_content_type
    (response : Response ErrorResponse) :
  match contentType response with
  | Some ct => includes ct (lit "application/json") = false
  | None => True
  end ->
  responseOf (handleApiError response) = None
  /\ messageOf (handleApiError response) = statusText response.
Proof.
  intros H.
  destruct (handleApiError_shape response)
    as (cls & message & errorData & -> & _ & Hdata & Hmsg).
  cbn [responseOf messageOf].
  assert (Hnone : errorData = None).
  { rewrite Hdata. destruct (contentType response); [now rewrite H | reflexivity]. }
  rewrite Hmsg, Hnone. split; reflexivity.
Qed.

End ClientMore.

(** * Reads that reject and callbacks that throw *)

Section FailureFacts.

Variable DecoderState : Type.
Variable decode : DecoderState -> bytes -> DecoderState * jsstring.
Variable newDecoder : DecoderState.
Variable J : Type.
Variable JSON_parse : jsstring -> option J.
Variable Options : Type.
Variable fetch : jsstring -> RequestInit Options -> FetchOutcome J.
Variable asError : J -> ErrorResponse.
Variable bodyEnd : Response J -> option exn.
Variable onChunk : nat -> jsstring -> option exn.










End FailureFacts.

(** * Properties of the second copy: targets and impressions *)

Section TargetsFacts.

Variable DecoderState : Type.
Variable decode : DecoderState -> bytes -> DecoderState * jsstring.
Variable newDecoder : DecoderState.
Variable J : Type.
Variable JSON_parse : jsstring -> option J.
Variable Options : Type.
Variable asError : J -> ErrorResponse.
Variable asAnswer : J -> option AnswerResponse.
Variable Handle : Type.
Variable getElementById : jsstring -> option Handle.
Variable fetch : jsstring -> WithTargets.Request Options -> FetchOutcome J.

Lemma fetchWithTimeout_outcome (url : jsstring)
    (init : WithTargets.Request Options) (t : N) :
  exists r,
    WithTargets.fetchWithTimeout (Handle:=Handle) fetch url init t
    = ([WithTargets.EFetch url init], r)
    /\ (forall response, r = inr response <-> fetch url init = Resolves response).
Proof.
  unfold WithTargets.fetchWithTimeout, WithTargets.bind, WithTargets.tell.
  destruct (fetch url init) as [response | [name msg|]];
    [| destruct (eqs name (lit "AbortError")) |];
    eexists; (split; [reflexivity|]); intros r0; split;
    intros H; try discriminate; congruence.
Qed.

Lemma setResponse_trace (c : ThredClient) (text : ResponseText)
    (code : jsstring) (link : option jsstring)
    (targets : option (Targets Handle)) :
  fst (WithTargets.setResponse asError getElementById fetch c text code link
         targets)
  = WithTargets.writes getElementById text link targets
    ++ registration c text code.
Proof.
  unfold WithTargets.setResponse, registration.
  destruct text as [t| |]; [|cbn; now rewrite app_nil_r..].
  destruct (truthy t && truthy code).
  - unfold WithTargets.bind at 1. cbn [WithTargets.tell].
    destruct (fetchWithTimeout_outcome
                (baseUrl ++ lit "/impressions/register")
                (WithTargets.post c (WithTargets.ImpressionBody t code))
                (timeout c)) as (r & -> & _).
    unfold WithTargets.bind, WithTargets.checkOk.
    destruct r as [e|response]; [reflexivity|].
    destruct (negb (ok response)); cbn; [reflexivity|].
    destruct (json response); reflexivity.
  - cbn. now rewrite app_nil_r.
Qed.

Lemma bind_inr {A B} (t : list (WithTargets.effect Options Handle)) (a : A)
    (k : A -> WithTargets.M Options Handle B) :
  WithTargets.bind (t, inr a) k = (t ++ fst (k a), snd (k a)).
Proof. cbn. now destruct (k a). Qed.

Lemma bind_inl {A B} (t : list (WithTargets.effect Options Handle)) (e : exn)
    (k : A -> WithTargets.M Options Handle B) :
  WithTargets.bind (t, inl e) k = (t, inl e).
Proof. reflexivity. Qed.

Ltac steps :=
  unfold WithTargets.ret, WithTargets.throw, WithTargets.tell;
  rewrite ?bind_inl, ?bind_inr; cbn [fst snd app]; rewrite ?app_nil_r.

Lemma codeOf_truthy (r : AnswerResponse) (md : AnswerMetadata) (code : jsstring) :
  WithTargets.codeOf r = Some (md, code) ->
  ar_metadata r = Some md /\ am_code md = Some code /\ truthy code = true.
Proof.
  unfold WithTargets.codeOf.
  destruct (ar_metadata r) as [md'|]; [|discriminate].
  destruct (am_code md') as [code'|] eqn:Ec; [|discriminate].
  destruct (truthy code') eqn:E; [|discriminate].
  intros [= <- <-]. auto.
Qed.

Lemma writes_elements (text : ResponseText) (link : option jsstring)
    (tg : Targets Handle) :
  WithTargets.writes (Options:=Options) getElementById text link (Some tg)
  = match elementOf getElementById (tg_text tg) with
    | Some h => [WithTargets.ESetInnerHTML h (htmlOf text)]
    | None => []
    end
    ++ match elementOf getElementById (tg_link tg), link with
       | Some h, Some l =>
           if truthy l then [WithTargets.ESetInnerHTML h l] else []
       | _, _ => []
       end.
Proof.
  unfold WithTargets.writes, WithTargets.given, WithTargets.resolve, elementOf.
  f_equal.
  - destruct (tg_text tg) as [[id|h]|]; [destruct (truthy id)|..]; reflexivity.
  - destruct (tg_link tg) as [[id|h]|]; [destruct (truthy id)|..]; reflexivity.
Qed.

(** X16.  [setResponse] first writes into the page: the text into the
    element of the text target, then the link, when there is one and it is
    not empty, into the element of the link target; a target without an
    element (no targets, no such target, an empty id, an id the page does
    not have) gets no write; a text that is [undefined] is written as the
    word [undefined], one that is [null] as the empty string.  It then registers an impression, with one
    [fetch] that posts the text and the code, exactly when both are
    non-empty strings; these are all its effects, in this order.  Without
    a request it resolves to [undefined]; with one, it resolves to a value
    exactly when the request is answered with a success status and a body
    that [response.json()] can read, and the value is that body. *)
Theorem X16_setResponse_writes_then_registers
    (c : ThredClient) (text : ResponseText) (code : jsstring)
    (link : option jsstring) (targets : option (Targets Handle)) :
  let call :=
    WithTargets.setResponse asError getElementById fetch c text code link
      targets in
  let textElement :=
    match targets with
    | Some tg => elementOf getElementById (tg_text tg)
    | None => None
    end in
  let linkElement :=
    match targets with
    | Some tg => elementOf getElementById (tg_link tg)
    | None => None
    end in
  fst call
  = match textElement with
    | Some h => [WithTargets.ESetInnerHTML h (htmlOf text)]
    | None => []
    end
    ++ match linkElement, link with
       | Some h, Some l =>
           if truthy l then [WithTargets.ESetInnerHTML h l] else []
       | _, _ => []
       end
    ++ registration c text code
  /\ (truthyOr text && truthy code = false -> snd call = inr None)
  /\ (forall t, text = Str t -> truthy t && truthy code = true ->
      forall j,
        snd call = inr (Some j)
        <-> exists response,
              fetch (baseUrl ++ lit "/impressions/register")
                (WithTargets.post c (WithTargets.ImpressionBody t code))
              = Resolves response
              /\ ok response = true /\ json response = Some j).
Proof.
  cbv zeta. split; [|split].
  - rewrite setResponse_trace. destruct targets as [tg|].
    + rewrite writes_elements. now rewrite <- app_assoc.
    + reflexivity.
  - unfold WithTargets.setResponse, truthyOr. destruct text as [t| |].
    + intros ->. reflexivity.
    + reflexivity.
    + reflexivity.
  - intros t -> Ht j. unfold WithTargets.setResponse. rewrite Ht.
    unfold WithTargets.fetchWithTimeout, WithTargets.checkOk,
      WithTargets.bind, WithTargets.tell, WithTargets.ret, WithTargets.throw.
    destruct (fetch (baseUrl ++ lit "/impressions/register")
                (WithTargets.post c (WithTargets.ImpressionBody t code)))
      as [response | [name msg|]] eqn:Hf;
      [| destruct (eqs name (lit "AbortError")) |];
      try (cbn [snd]; split;
           [discriminate | intros (r & Hr & _); discriminate]).
    cbn beta iota. destruct (ok response) eqn:Hok; cbn [negb]; cbn beta iota.
    + destruct (json response) as [j'|] eqn:Hj; cbn [snd].
      * split.
        -- intros [= ->]. exists response. auto.
        -- intros (r & [= <-] & _ & Hj'). congruence.
      * split; [discriminate|]. intros (r & [= <-] & _ & Hj'). congruence.
    + cbn [snd]. split; [discriminate|].
      intros (r & [= <-] & Hok' & _). congruence.
Qed.

Lemma truthy_not_empty (s : jsstring) : truthy s = true -> s <> [].
Proof. intros H ->. discriminate. Qed.

Lemma impression_wellFormed (c : ThredClient) (request : AnswerRequest Options)
    (text code : jsstring) :
  truthy text = true -> truthy code = true ->
  wellFormed (Handle:=Handle) c request (impression c text code).
Proof.
  intros Ht Hc. unfold wellFormed, impression, WithTargets.post.
  cbn [WithTargets.rq_method WithTargets.rq_authorization
       WithTargets.rq_contentType WithTargets.rq_body].
  repeat match goal with |- _ /\ _ => split end; try reflexivity;
    now apply truthy_not_empty.
Qed.

Lemma writes_wellFormed (c : ThredClient) (request : AnswerRequest Options)
    (text : ResponseText) (link : option jsstring)
    (targets : option (Targets Handle)) :
  Forall (wellFormed c request)
    (WithTargets.writes (Options:=Options) getElementById text link targets).
Proof.
  destruct targets as [tg|]; [|constructor]. rewrite writes_elements.
  apply Forall_app. split.
  - destruct (elementOf getElementById (tg_text tg)); repeat constructor.
  - destruct (elementOf getElementById (tg_link tg)); [|constructor].
    destruct link as [l|]; [|constructor].
    destruct (truthy l); repeat constructor.
Qed.

Lemma answer_targets_split
    (c : ThredClient) (request : AnswerRequest Options)
    (targets : option (Targets Handle)) :
  let plain :=
    WithTargets.answer asError asAnswer getElementById fetch c request None in
  let call :=
    WithTargets.answer asError asAnswer getElementById fetch c request targets in
  snd call = snd plain
  /\ fst call
     = fst plain
       ++ match targets, snd plain with
          | Some tg, inr responseJson =>
              match asAnswer responseJson with
              | Some r =>
                  match ar_response r with
                  | Str text =>
                      if truthy text then
                        match WithTargets.codeOf r with
                        | Some (md, code) =>
                            WithTargets.writes getElementById (Str text)
                              (am_link md) (Some tg)
                            ++ [impression c text code]
                        | None => []
                        end
                      else []
                  | _ => []
                  end
              | None => []
              end
          | _, _ => []
          end.
Proof.
  cbv zeta. unfold WithTargets.answer.
  destruct (messageMissing request).
  { destruct targets; split; reflexivity. }
  destruct (fetchWithTimeout_outcome (baseUrl ++ lit "/answer")
              (WithTargets.post c (WithTargets.AnswerBody (withModel c request)))
              (timeout c)) as (r & -> & _).
  destruct r as [e|response]; steps.
  { destruct targets; split; reflexivity. }
  unfold WithTargets.checkOk. destruct (negb (ok response)); steps.
  { destruct targets; split; reflexivity. }
  destruct (json response) as [j|]; steps.
  2:{ destruct targets; split; reflexivity. }
  destruct targets as [tg|]; steps.
  2:{ split; reflexivity. }
  destruct (asAnswer j) as [a|]; steps.
  2:{ split; reflexivity. }
  unfold truthyOr. destruct (ar_response a) as [text| |]; steps.
  2,3:split; reflexivity.
  destruct (truthy text) eqn:Ht; steps.
  2:{ split; reflexivity. }
  destruct (WithTargets.codeOf a) as [[md code]|] eqn:Hc; steps.
  2:{ split; reflexivity. }
  destruct (codeOf_truthy _ Hc) as (_ & _ & Hcode).
  unfold WithTargets.detached. steps.
  rewrite setResponse_trace. unfold registration. rewrite Ht, Hcode.
  cbn [andb]. steps. split; reflexivity.
Qed.

(** X18.  The targets never change what [answer] returns or throws, nor
    what it does up to there; they only add effects at the end.  Effects
    are added exactly when targets are given and the call returns a body
    whose response text and metadata code are both non-empty; they are the
    writes of [setResponse] followed by one impression request with that
    text and that code.  What that request comes to is not looked at. *)
Theorem X18_targets_only_add_effects_to_answer
    (c : ThredClient) (request : AnswerRequest Options)
    (targets : option (Targets Handle)) :
  let plain :=
    WithTargets.answer asError asAnswer getElementById fetch c request None in
  let call :=
    WithTargets.answer asError asAnswer getElementById fetch c request targets in
  snd call = snd plain
  /\ fst call
     = fst plain
       ++ match targets, snd plain with
          | Some tg, inr responseJson =>
              match asAnswer responseJson with
              | Some r =>
                  match ar_response r with
                  | Str text =>
                      if truthy text then
                        match WithTargets.codeOf r with
                        | Some (md, code) =>
                            WithTargets.writes getElementById (Str text)
                              (am_link md) (Some tg)
                            ++ [impression c text code]
                        | None => []
                        end
                      else []
                  | _ => []
                  end
              | None => []
              end
          | _, _ => []
          end.
Proof. exact (answer_targets_split c request targets). Qed.

(** X17.  Without targets the second copy of [answer] and of
    [answerStream] does what the first copy does: the same effects in the
    same order, the same value returned or exception thrown. *)
Theorem X17_without_targets_second_copy_is_first_copy
    (c : ThredClient) (request : AnswerRequest Options) :
  let fetch1 := fun url init => fetch url (liftInit init) in
  (map (liftEffect (Handle:=Handle)) (fst (answer fetch1 asError c request))
   = map Some
       (fst (WithTargets.answer asError asAnswer getElementById fetch c
               request None))
   /\ snd (answer fetch1 asError c request)
      = snd (WithTargets.answer asError asAnswer getElementById fetch c
               request None))
  /\ (map (liftEffect (Handle:=Handle))
         (fst (answerStream decode newDecoder JSON_parse fetch1 asError c
                 request))
      = map Some
          (fst (WithTargets.answerStream decode newDecoder JSON_parse asError
                  asAnswer getElementById fetch c request None))
      /\ snd (answerStream decode newDecoder JSON_parse fetch1 asError c request)
         = snd (WithTargets.answerStream decode newDecoder JSON_parse asError
                  asAnswer getElementById fetch c request None)).
Proof.
  cbv zeta.
  unfold answer, answerStream, WithTargets.answer, WithTargets.answerStream,
    fetchWithTimeout, WithTargets.fetchWithTimeout, checkOk,
    WithTargets.checkOk.
  destruct (messageMissing request); [repeat split|].
  change (liftInit (post c (withModel c request)))
    with (WithTargets.post c (WithTargets.AnswerBody (withModel c request))).
  split.
  - destruct (fetch (baseUrl ++ lit "/answer")
                (WithTargets.post c (WithTargets.AnswerBody (withModel c request))))
      as [response | [name msg|]];
      [| destruct (eqs name (lit "AbortError")) |]; try (split; reflexivity).
    cbn. destruct (ok response); cbn; [|split; reflexivity].
    destruct (json response); split; reflexivity.
  - destruct (fetch (baseUrl ++ lit "/answer/stream")
                (WithTargets.post c (WithTargets.AnswerBody (withModel c request))))
      as [response | [name msg|]];
      [| destruct (eqs name (lit "AbortError")) |]; try (split; reflexivity).
    cbn. destruct (ok response); cbn; [|split; reflexivity].
    destruct (body response) as [chunks|]; [|split; reflexivity].
    destruct (processStream decode JSON_parse newDecoder chunks)
      as [calls result].
    cbn. rewrite !app_nil_r. split; [|reflexivity].
    cbn. do 2 f_equal. rewrite !map_app, !map_map. reflexivity.
Qed.

Lemma answerStream_targets_split
    (c : ThredClient) (request : AnswerRequest Options)
    (targets : option (Targets Handle)) :
  let plain :=
    WithTargets.answerStream decode newDecoder JSON_parse asError asAnswer
      getElementById fetch c request None in
  let call :=
    WithTargets.answerStream decode newDecoder JSON_parse asError asAnswer
      getElementById fetch c request targets in
  snd call = snd plain
  /\ fst call
     = fst plain
       ++ match targets, snd plain with
          | Some tg, inr (Some resultJson) =>
              match asAnswer resultJson with
              | Some r =>
                  match WithTargets.codeOf r with
                  | Some (md, code) =>
                      WithTargets.writes getElementById (ar_response r)
                        (am_link md) (Some tg)
                      ++ match ar_response r with
                         | Str text =>
                             if truthy text then [impression c text code]
                             else []
                         | _ => []
                         end
                  | None => []
                  end
              | None => []
              end
          | _, _ => []
          end.
Proof.
  cbv zeta. unfold WithTargets.answerStream.
  destruct (messageMissing request).
  { destruct targets; split; reflexivity. }
  destruct (fetchWithTimeout_outcome (baseUrl ++ lit "/answer/stream")
              (WithTargets.post c (WithTargets.AnswerBody (withModel c request)))
              (timeout c)) as (r & -> & _).
  destruct r as [e|response]; steps.
  { destruct targets; split; reflexivity. }
  unfold WithTargets.checkOk. destruct (negb (ok response)); steps.
  { destruct targets; split; reflexivity. }
  destruct (body response) as [chunks|]; steps.
  2:{ destruct targets; split; reflexivity. }
  destruct (processStream decode JSON_parse newDecoder chunks)
    as [calls result].
  unfold WithTargets.finallyRelease. steps.
  destruct targets as [tg|]; steps.
  2:{ split; reflexivity. }
  destruct result as [j|]; steps.
  2:{ split; reflexivity. }
  destruct (asAnswer j) as [a|]; steps.
  2:{ split; reflexivity. }
  destruct (WithTargets.codeOf a) as [[md code]|] eqn:Hc; steps.
  2:{ split; reflexivity. }
  destruct (codeOf_truthy _ Hc) as (_ & _ & Hcode).
  unfold WithTargets.detached. steps.
  rewrite setResponse_trace. unfold registration. rewrite Hcode.
  split; [reflexivity|]. rewrite <- !app_assoc. do 5 f_equal.
  destruct (ar_response a) as [text| |];
    [now rewrite andb_true_r | reflexivity..].
Qed.

(** X11.  The targets never change what [answerStream] returns or throws,
    nor its callbacks.  With targets and a parsed result whose metadata
    code is not empty, [setResponse] writes the page with the response text
    of the result as it is, be it empty, [undefined] or [null], and one
    impression request is sent only when that text is a non-empty string;
    all of that comes after the reader is released. *)
Theorem X11_targets_only_add_effects_to_answerStream
    (c : ThredClient) (request : AnswerRequest Options)
    (targets : option (Targets Handle)) :
  let plain :=
    WithTargets.answerStream decode newDecoder JSON_parse asError asAnswer
      getElementById fetch c request None in
  let call :=
    WithTargets.answerStream decode newDecoder JSON_parse asError asAnswer
      getElementById fetch c request targets in
  snd call = snd plain
  /\ fst call
     = fst plain
       ++ match targets, snd plain with
          | Some tg, inr (Some resultJson) =>
              match asAnswer resultJson with
              | Some r =>
                  match WithTargets.codeOf r with
                  | Some (md, code) =>
                      WithTargets.writes getElementById (ar_response r)
                        (am_link md) (Some tg)
                      ++ match ar_response r with
                         | Str text =>
                             if truthy text then [impression c text code]
                             else []
                         | _ => []
                         end
                  | None => []
                  end
              | None => []
              end
          | _, _ => []
          end.
Proof. exact (answerStream_targets_split c request targets). Qed.

Lemma answer_plain_wellFormed
    (c : ThredClient) (request : AnswerRequest Options) :
  Forall (wellFormed c request)
    (fst (WithTargets.answer asError asAnswer getElementById fetch c request
            None)).
Proof.
  unfold WithTargets.answer.
  destruct (messageMissing request); [constructor|].
  destruct (fetchWithTimeout_outcome (baseUrl ++ lit "/answer")
              (WithTargets.post c (WithTargets.AnswerBody (withModel c request)))
              (timeout c)) as (r & -> & _).
  assert (Hf : wellFormed (Handle:=Handle) c request
                 (WithTargets.EFetch (baseUrl ++ lit "/answer")
                    (WithTargets.post c
                       (WithTargets.AnswerBody (withModel c request))))).
  { cbn. repeat match goal with |- _ /\ _ => split end; try reflexivity.
    now left. }
  destruct r as [e|response]; steps; [now constructor|].
  unfold WithTargets.checkOk. destruct (negb (ok response)); steps;
    [now constructor|].
  destruct (json response); steps; now constructor.
Qed.

Lemma answerStream_plain_wellFormed
    (c : ThredClient) (request : AnswerRequest Options) :
  Forall (wellFormed c request)
    (fst (WithTargets.answerStream decode newDecoder JSON_parse asError
            asAnswer getElementById fetch c request None)).
Proof.
  unfold WithTargets.answerStream.
  destruct (messageMissing request); [constructor|].
  destruct (fetchWithTimeout_outcome (baseUrl ++ lit "/answer/stream")
              (WithTargets.post c (WithTargets.AnswerBody (withModel c request)))
              (timeout c)) as (r & -> & _).
  assert (Hf : wellFormed (Handle:=Handle) c request
                 (WithTargets.EFetch (baseUrl ++ lit "/answer/stream")
                    (WithTargets.post c
                       (WithTargets.AnswerBody (withModel c request))))).
  { cbn. repeat match goal with |- _ /\ _ => split end; try reflexivity.
    now right. }
  destruct r as [e|response]; steps; [now constructor|].
  unfold WithTargets.checkOk. destruct (negb (ok response)); steps;
    [now constructor|].
  destruct (body response) as [chunks|]; steps; [|now constructor].
  destruct (processStream decode JSON_parse newDecoder chunks)
    as [calls result].
  unfold WithTargets.finallyRelease. steps.
  constructor; [exact Hf|]. constructor; [exact I|].
  apply Forall_app. split.
  - apply Forall_app. split; [|repeat constructor].
    apply Forall_forall. intros e He. apply in_map_iff in He.
    destruct He as (t & <- & _). exact I.
  - constructor.
Qed.

(** X13.  Every request [answer] and [answerStream] send, the impression
    they may register for the targets included, is a POST that carries the
    API key as bearer token and the JSON content type.  It goes to the
    answer end point of the method with the message and the options of the
    call and with a model (the one of the request, else the default of the
    client), or to the impressions end point with a text and a code that
    are both not empty. *)
Theorem X13_every_request_is_an_authorized_post
    (c : ThredClient) (request : AnswerRequest Options)
    (targets : option (Targets Handle)) :
  Forall (wellFormed c request)
    (fst (WithTargets.answer asError asAnswer getElementById fetch c request
            targets))
  /\ Forall (wellFormed c request)
       (fst (WithTargets.answerStream decode newDecoder JSON_parse asError
               asAnswer getElementById fetch c request targets)).
Proof.
  split.
  - destruct (answer_targets_split c request targets) as [_ ->].
    apply Forall_app. split; [apply answer_plain_wellFormed|].
    destruct targets as [tg|]; [|constructor].
    destruct (snd _) as [e|j]; [constructor|].
    destruct (asAnswer j) as [a|]; [|constructor].
    destruct (ar_response a) as [text| |]; [|constructor..].
    destruct (truthy text) eqn:Ht; [|constructor].
    destruct (WithTargets.codeOf a) as [[md code]|] eqn:Hc; [|constructor].
    destruct (codeOf_truthy _ Hc) as (_ & _ & Hcode).
    apply Forall_app. split; [apply writes_wellFormed|].
    constructor; [|constructor]. now apply impression_wellFormed.
  - destruct (answerStream_targets_split c request targets) as [_ ->].
    apply Forall_app. split; [apply answerStream_plain_wellFormed|].
    destruct targets as [tg|]; [|constructor].
    destruct (snd _) as [e|[j|]]; [constructor| |constructor].
    destruct (asAnswer j) as [a|]; [|constructor].
    destruct (WithTargets.codeOf a) as [[md code]|] eqn:Hc; [|constructor].
    destruct (codeOf_truthy _ Hc) as (_ & _ & Hcode).
    apply Forall_app. split; [apply writes_wellFormed|].
    destruct (ar_response a) as [text| |]; [|constructor..].
    destruct (truthy text) eqn:Ht; [|constructor].
    constructor; [|constructor]. now apply impression_wellFormed.
Qed.

End TargetsFacts.

(** * The further properties on concrete inputs *)

(** The theorem of X1 on ["Hi there"] in two chunks. *)
Lemma X1_witness :
  indexOf
    (concat (decodeAll Utf8.decode Utf8.fresh [lit "Hi "; lit "there"]))
    delimiter = None
  /\ run [lit "Hi "; lit "there"] = ([lit "Hi "; lit "Hi there"], None)
  /\ runGenerator [lit "Hi "; lit "there"]
     = [YText (lit "Hi "); YText (lit "Hi there")].
Proof.
  split; [reflexivity|].
  exact (X1_stream_without_delimiter_is_all_text Utf8.decode Json.parse
           Utf8.fresh [lit "Hi "; lit "there"] eq_refl).
Defined.

(** The theorem of X2 on the example stream, cut inside ["Hello world"] and
    followed by one more chunk. *)
Lemma X2_witness :
  indexOf (lit "Hello world" ++ blankLine ++ brandUsedNull) delimiter
  = Some (length (lit "Hello world"))
  /\ Json.parse brandUsedNull
     = Some (Json.JObject [(lit "brandUsed", Json.JNull)])
  /\ snd (run [lit "Hello "; lit "world" ++ blankLine ++ brandUsedNull;
               lit "ignored"])
     = Some (Json.JObject [(lit "brandUsed", Json.JNull)])
  /\ last (fst (run [lit "Hello "; lit "world" ++ blankLine ++ brandUsedNull;
                     lit "ignored"])) []
     = lit "Hello world".
Proof.
  split; [reflexivity|]. split; [reflexivity|].
  pose proof (X2_metadata_in_one_chunk_gives_text_and_metadata Utf8.decode
                Json.parse Utf8.fresh
                (d':=fst (Utf8.decode
                            (decoderAfter Utf8.decode Utf8.fresh [lit "Hello "])
                            (lit "world" ++ blankLine ++ brandUsedNull)))
                [lit "Hello "] (lit "world" ++ blankLine ++ brandUsedNull)
                [lit "ignored"] (T:=lit "Hello world") (lit "world")
                brandUsedNull eq_refl eq_refl eq_refl eq_refl)
    as (H1 & H2 & _).
  split; [exact H1 | exact H2].
Defined.

(** The theorem of X3 on the example stream followed by one more chunk. *)
Lemma X3_witness :
  metadata (snd (readLoop Utf8.decode Json.parse Utf8.fresh [helloStream]
                   (initial Json.json)))
  = Some (Json.JObject [(lit "brandUsed", Json.JNull)])
  /\ run ([helloStream] ++ [lit "more"]) = run [helloStream]
  /\ runGenerator ([helloStream] ++ [lit "more"]) = runGenerator [helloStream].
Proof.
  split; [reflexivity|].
  exact (X3_chunks_after_the_metadata_are_not_read Utf8.decode Json.parse
           Utf8.fresh [helloStream] [lit "more"] eq_refl).
Defined.

(** The theorem of X6 on the example stream cut after the brace. *)
Lemma X6_witness :
  lit "Hello world" <> []
  /\ indexOf (lit "Hello world" ++ blankLine ++ lit "{") delimiter
     = Some (length (lit "Hello world"))
  /\ Json.parse (lit "{") = None
  /\ Json.parse (lit "{" ++ skipn 1 brandUsedNull)
     = Some (Json.JObject [(lit "brandUsed", Json.JNull)])
  /\ run [lit "Hello world" ++ blankLine ++ lit "{"; skipn 1 brandUsedNull]
     = ([lit "Hello world"; lit "Hello world" ++ lit "Hello world"],
        Some (Json.JObject [(lit "brandUsed", Json.JNull)])).
Proof.
  split; [discriminate|]. split; [reflexivity|]. split; [reflexivity|].
  split; [reflexivity|].
  refine (proj1 (X6_text_appended_again_when_json_completes_later Utf8.decode
                   Json.parse Utf8.fresh
                   (d1:=fst (Utf8.decode Utf8.fresh
                               (lit "Hello world" ++ blankLine ++ lit "{")))
                   (d2:=fst (Utf8.decode
                               (fst (Utf8.decode Utf8.fresh
                                       (lit "Hello world" ++ blankLine
                                        ++ lit "{")))
                               (skipn 1 brandUsedNull)))
                   (lit "Hello world" ++ blankLine ++ lit "{")
                   (skipn 1 brandUsedNull) [] (T:=lit "Hello world") (lit "{")
                   (J2:=skipn 1 brandUsedNull)
                   (m:=Json.JObject [(lit "brandUsed", Json.JNull)])
                   _ eq_refl eq_refl eq_refl eq_refl eq_refl)).
  discriminate.
Defined.

(** The theorem of X7 on a buffer with two blank lines and no JSON. *)
Lemma X7_witness :
  indexOf (lit "a" ++ blankLine ++ lit "b" ++ blankLine ++ lit "c") blankLine
  = Some 1
  /\ 1 + 2 < length (lit "a" ++ blankLine ++ lit "b" ++ blankLine ++ lit "c")
  /\ fst (drain Json.parse
            (mkState (lit "a" ++ blankLine ++ lit "b" ++ blankLine ++ lit "c")
               (lit "x") None))
     = [lit "xa"; lit "xa" ++ blankLine ++ lit "b" ++ blankLine ++ lit "c"]
  /\ last (fst (drain Json.parse
                  (mkState
                     (lit "a" ++ blankLine ++ lit "b" ++ blankLine ++ lit "c")
                     (lit "x") None))) []
     = lit "x" ++ lit "a" ++ blankLine ++ lit "b" ++ blankLine ++ lit "c".
Proof.
  split; [reflexivity|]. split; [simpl; lia|]. split; [reflexivity|].
  assert (Hlen : 1 + 2
                 < length (lit "a" ++ blankLine ++ lit "b" ++ blankLine
                           ++ lit "c")) by (simpl; lia).
  exact (proj1 (proj2 (X7_fallback_cuts_at_first_blank_line Json.parse
                         (mkState
                            (lit "a" ++ blankLine ++ lit "b" ++ blankLine
                             ++ lit "c") (lit "x") None)
                         (p:=1) eq_refl Hlen))).
Defined.

(** The theorem of X8 on a message of two spaces. *)
Lemma X8_witness :
  forallb isWhiteSpace [32; 32]%N = true
  /\ messageMissing (mkRequest [32; 32]%N None tt) = true.
Proof.
  split; [reflexivity|].
  exact (proj2 (X8_message_check_refuses_exactly_blank_messages
                  (mkRequest [32; 32]%N None tt)) eq_refl).
Defined.

(** The theorem of X10 on a network that answers [null] with status 200. *)
Lemma X10_witness :
  messageMissing (mkRequest (lit "Hi") None tt) = false
  /\ answer (answering Json.JNull) noDetail exampleClient
       (mkRequest (lit "Hi") None tt)
     = ([EFetch (baseUrl ++ lit "/answer")
           (post exampleClient (mkRequest (lit "Hi") (Some gpt_4) tt))],
        inr Json.JNull).
Proof.
  split; [reflexivity|].
  pose proof (X10_answer_returns_exactly_the_body_of_a_success
                (answering Json.JNull) noDetail exampleClient
                (mkRequest (lit "Hi") None tt) Json.JNull) as [Hiff Htrace].
  apply injective_projections.
  - exact (Htrace eq_refl).
  - apply (proj2 Hiff). split; [reflexivity|].
    eexists. split; [reflexivity|]. split; reflexivity.
Defined.

(** The theorem of X12 on a configuration with a key and [NaN] as
    timeout. *)
Lemma X12_witness :
  new_ThredClient (mkConfig (lit "key") None (Some NaN))
  = inr (mkClient (lit "key") gpt_4 30000)
  /\ timeout (mkClient (lit "key") gpt_4 30000) = 30000%N
  /\ apiKey (mkClient (lit "key") gpt_4 30000) <> [].
Proof.
  split; [reflexivity|].
  pose proof (proj2 (X12_constructor_requires_key_and_fills_defaults
                       (mkConfig (lit "key") None (Some NaN)))
                (mkClient (lit "key") gpt_4 30000) eq_refl)
    as (_ & Hkey & _ & _ & Hdefault & _).
  split; [exact (Hdefault (or_intror (or_introl eq_refl))) | exact Hkey].
Defined.

(** The theorem of X14 on a 503 response without a body. *)
Lemma X14_witness :
  statusText (mkResponse (B:=ErrorResponse) 503 (lit "Service Unavailable")
                None None None) <> []
  /\ messageOf (handleApiError
                  (mkResponse 503 (lit "Service Unavailable") None None None))
     <> [].
Proof.
  assert (H : statusText (mkResponse (B:=ErrorResponse) 503
                            (lit "Service Unavailable") None None None) <> [])
    by discriminate.
  split; [exact H|].
  exact (proj2 (X14_error_message_falls_back_and_is_not_empty
                  (mkResponse 503 (lit "Service Unavailable") None None None))
           H).
Defined.

(** The theorem of X15 on a 502 response that says [text/html] and has a
    body that parses. *)
Lemma X15_witness :
  includes (lit "text/html") (lit "application/json") = false
  /\ responseOf (handleApiError
                   (mkResponse 502 (lit "Bad Gateway") (Some (lit "text/html"))
                      (Some (mkErrorResponse (lit "upstream") None)) None))
     = None
  /\ messageOf (handleApiError
                  (mkResponse 502 (lit "Bad Gateway") (Some (lit "text/html"))
                     (Some (mkErrorResponse (lit "upstream") None)) None))
     = lit "Bad Gateway".
Proof.
  split; [reflexivity|].
  exact (X15_body_ignored_without_json_content_type
           (mkResponse 502 (lit "Bad Gateway") (Some (lit "text/html"))
              (Some (mkErrorResponse (lit "upstream") None)) None) eq_refl).
Defined.

(** The theorem of X16 on a text target given by its id and a link target
    given as an element, with a non-empty text, code and link, on a network
    that accepts the impression. *)
Lemma X16_witness :
  truthy (lit "T") && truthy (lit "c1") = true
  /\ WithTargets.setResponse noDetail page accepting exampleClient
       (Str (lit "T")) (lit "c1") (Some (lit "L"))
       (Some (mkTargets (Some (ById (lit "answer"))) (Some (Element 7%N))))
     = ([WithTargets.ESetInnerHTML 1%N (lit "T");
         WithTargets.ESetInnerHTML 7%N (lit "L");
         impression exampleClient (lit "T") (lit "c1")],
        inr (Some Json.JNull)).
Proof.
  split; [reflexivity|].
  destruct (X16_setResponse_writes_then_registers noDetail page accepting
              exampleClient (Str (lit "T")) (lit "c1") (Some (lit "L"))
              (Some (mkTargets (Some (ById (lit "answer")))
                       (Some (Element 7%N)))))
    as (Htrace & _ & Hvalue).
  apply injective_projections.
  - exact Htrace.
  - apply (proj2 (Hvalue (lit "T") eq_refl eq_refl Json.JNull)).
    eexists. split; [reflexivity|]. split; reflexivity.
Defined.

(** A stream result without a response text, on the page: [answerStream]
    of the second copy writes the word [undefined] into the text target
    and the link into the link target, and sends no impression. *)
Example run_stream_result_without_response_text :
  WithTargets.answerStream Utf8.decode Utf8.fresh Json.parse noDetail
    codeOnly page accepting exampleClient (mkRequest (lit "Hi") None tt)
    (Some (mkTargets (Some (ById (lit "answer"))) (Some (ById (lit "link")))))
  = ([WithTargets.EFetch (baseUrl ++ lit "/answer/stream")
        (WithTargets.post exampleClient
           (WithTargets.AnswerBody (mkRequest (lit "Hi") (Some gpt_4) tt)));
      WithTargets.EGetReader;
      WithTargets.EOnChunk (lit "Hello world");
      WithTargets.EReleaseLock;
      WithTargets.ESetInnerHTML 1%N (lit "undefined");
      WithTargets.ESetInnerHTML 2%N (lit "l1")],
     inr (Some (Json.JObject [(lit "brandUsed", Json.JNull)]))).
Proof. vm_compute. reflexivity. Qed.


(** A read that rejects after two chunks: both callbacks are made, the
    reader is released and the rejection is thrown; the code after the loop
    does not run.  The generator yields the two texts and throws. *)
Example run_read_rejects :
  let url := baseUrl ++ lit "/answer/stream" in
  let init := post exampleClient (mkRequest (lit "Hi") (Some gpt_4) tt) in
  WithFailures.answerStream Utf8.decode Utf8.fresh Json.parse
    (streaming [lit "Hi "; lit "there"]) noDetail readFails quiet
    exampleClient (mkRequest (lit "Hi") None tt)
  = ([EFetch url init; EGetReader; EOnChunk (lit "Hi ");
      EOnChunk (lit "Hi there"); EReleaseLock],
     inl (Error (lit "read failed")))
  /\ WithFailures.answerStreamGenerator Utf8.decode Utf8.fresh Json.parse
       (streaming [lit "Hi "; lit "there"]) noDetail readFails
       exampleClient (mkRequest (lit "Hi") None tt)
     = ([EFetch url init; EGetReader; EYield (YText (lit "Hi "));
         EYield (YText (lit "Hi there")); EReleaseLock],
        inl (Error (lit "read failed"))).
Proof. vm_compute. split; reflexivity. Qed.

(** A callback that throws at its first call: no further read, the reader
    is released and the exception of the callback is thrown. *)
Example run_callback_throws :
  WithFailures.answerStream Utf8.decode Utf8.fresh Json.parse
    (streaming [lit "Hi "; lit "there"]) noDetail readsEnd (throwsAt 0)
    exampleClient (mkRequest (lit "Hi") None tt)
  = ([EFetch (baseUrl ++ lit "/answer/stream")
        (post exampleClient (mkRequest (lit "Hi") (Some gpt_4) tt));
      EGetReader; EOnChunk (lit "Hi "); EReleaseLock],
     inl (Error (lit "stop"))).
Proof. vm_compute. reflexivity. Qed.

(** Once the metadata is parsed no read is made any more: a read that
    would reject after the last chunk does not matter. *)
Example run_rejection_after_metadata_not_reached :
  WithFailures.answerStream Utf8.decode Utf8.fresh Json.parse
    (streaming [helloStream]) noDetail readFails quiet
    exampleClient (mkRequest (lit "Hi") None tt)
  = answerStream Utf8.decode Utf8.fresh Json.parse
      (streaming [helloStream]) noDetail exampleClient
      (mkRequest (lit "Hi") None tt).
Proof. vm_compute. reflexivity. Qed.
